(** * GraphQL over HTTP for Channels

    A shallow embedding of [strawberry/channels/handlers/http_handler.py]:
    the request adapter ([ChannelsRequestAdapter]), the HTTP consumer
    ([GraphQLHTTPConsumer]) and its synchronous variant
    ([SyncGraphQLHTTPConsumer]), followed by the properties the
    specification states about them.

    Conventions of the embedding.
    - A Python [bytes] value is a Rocq [string] (a sequence of 8-bit
      characters).  A Python [str] value is represented by its UTF-8
      encoding, again a [string]; [encode] is therefore the identity and
      [decode] is the strict UTF-8 well-formedness check.
    - A Python [dict] is a [gmap]; a [set] is a [gset].
    - Raising is an explicit error result: [res A] is [exn + A].
    - Functions of the Python standard library, of Django and of the rest
      of strawberry that the module only calls ([str.lower],
      [urllib.parse.unquote], [json.loads], [json.dumps], the multipart
      parser, the base view's [run], the engine) are Section variables. *)

From Stdlib Require Import ZArith NArith String Ascii List.
From stdpp Require Import base option list gmap strings.

Local Open Scope string_scope.
Local Open Scope list_scope.

(** ** Exceptions and the error monad *)

Inductive OperationType : Type :=
| QUERY
| MUTATION
| SUBSCRIPTION.

Inductive exn : Type :=
| UnicodeDecodeError
| IndexError
| JSONDecodeError
| MethodNotAllowed
| ExecutionError
| InvalidOperationTypeError (operation_type : OperationType)
| HTTPException (status_code : Z) (reason : string)
| ForeignError (name : string).

Definition res (A : Type) : Type := (exn + A)%type.

Definition raise {A : Type} (e : exn) : res A := inl e.

#[global] Instance res_ret : MRet res := fun A a => inr a.

#[global] Instance res_bind : MBind res :=
  fun A B k m => match m with inl e => inl e | inr a => k a end.

#[global] Instance res_fmap : FMap res :=
  fun A B f m => match m with inl e => inl e | inr a => inr (f a) end.

(** ** Python strings and bytes *)

Definition encode (s : string) : string := s.

Inductive utf8_state : Type :=
| Utf8Start
| Utf8Need (n : nat) (lo hi : N).

Definition in_range (lo hi b : N) : bool := ((lo <=? b) && (b <=? hi))%N.

Definition utf8_lead (b : N) : option utf8_state :=
  if (b <? 128)%N then Some Utf8Start
  else if in_range 194 223 b then Some (Utf8Need 1 128 191)
  else if (b =? 224)%N then Some (Utf8Need 2 160 191)
  else if (b =? 237)%N then Some (Utf8Need 2 128 159)
  else if in_range 225 239 b then Some (Utf8Need 2 128 191)
  else if (b =? 240)%N then Some (Utf8Need 3 144 191)
  else if in_range 241 243 b then Some (Utf8Need 3 128 191)
  else if (b =? 244)%N then Some (Utf8Need 3 128 143)
  else None.

Definition utf8_step (st : utf8_state) (b : N) : option utf8_state :=
  match st with
  | Utf8Start => utf8_lead b
  | Utf8Need n lo hi =>
      if in_range lo hi b then
        match n with
        | S (S m) => Some (Utf8Need (S m) 128 191)
        | _ => Some Utf8Start
        end
      else None
  end.

Fixpoint utf8_run (st : utf8_state) (s : string) : bool :=
  match s with
  | EmptyString => match st with Utf8Start => true | _ => false end
  | String a s' =>
      match utf8_step st (N_of_ascii a) with
      | Some st' => utf8_run st' s'
      | None => false
      end
  end.

Definition utf8_valid (s : string) : bool := utf8_run Utf8Start s.

(** [b.decode()]: strict UTF-8. *)
Definition decode (b : string) : res string :=
  if utf8_valid b then mret b else raise UnicodeDecodeError.

(** [s.split(sep)] for a one-character separator. *)
Fixpoint split (sep : ascii) (s : string) : list string :=
  match s with
  | EmptyString => [EmptyString]
  | String a s' =>
      if Ascii.eqb a sep then EmptyString :: split sep s'
      else match split sep s' with
           | h :: t => String a h :: t
           | [] => [String a EmptyString]
           end
  end.

Fixpoint partition (sep : ascii) (s : string) : option (string * string) :=
  match s with
  | EmptyString => None
  | String a s' =>
      if Ascii.eqb a sep then Some (EmptyString, s')
      else match partition sep s' with
           | Some (h, t) => Some (String a h, t)
           | None => None
           end
  end.

(** [s.split(sep, 1)]. *)
Definition split1 (sep : ascii) (s : string) : list string :=
  match partition sep s with
  | Some (h, t) => [h; t]
  | None => [s]
  end.

(** [s.replace(old, new)] for one-character arguments. *)
Fixpoint replace (old new : ascii) (s : string) : string :=
  match s with
  | EmptyString => EmptyString
  | String a s' => String (if Ascii.eqb a old then new else a) (replace old new s')
  end.

(** ** [urllib.parse.parse_qsl] and [parse_qs]

    The loops of CPython's [urllib/parse.py] with [strict_parsing=False],
    [max_num_fields=None] and [separator='&']; [unquote] stays abstract. *)

Section ParseQs.

Variable unquote : string -> string.

Definition parse_qsl_field (keep_blank_values : bool) (name_value : string)
  : list (string * string) :=
  if String.eqb name_value "" then []
  else
    let nv := split1 "=" name_value in
    let nv :=
      if negb (length nv =? 2)%nat
      then (if keep_blank_values then Some (nv ++ [""]) else None)
      else Some nv in
    match nv with
    | Some [n; v] =>
        if negb (String.length v =? 0)%nat || keep_blank_values
        then [(unquote (replace "+" " " n), unquote (replace "+" " " v))]
        else []
    | _ => []
    end.

Definition parse_qsl (keep_blank_values : bool) (qs : string)
  : list (string * string) :=
  flat_map (parse_qsl_field keep_blank_values) (split "&" qs).

Definition parse_qs_add (parsed_result : gmap string (list string))
  (pair : string * string) : gmap string (list string) :=
  let '(name, value) := pair in
  match parsed_result !! name with
  | Some values => <[name := values ++ [value]]> parsed_result
  | None => <[name := [value]]> parsed_result
  end.

Definition parse_qs (keep_blank_values : bool) (qs : string)
  : gmap string (list string) :=
  foldl parse_qs_add ∅ (parse_qsl keep_blank_values qs).

End ParseQs.

(** ** [json.loads] and Django's [QueryDict.get]

    [json.loads] raises [JSONDecodeError] on the empty document; on every
    other document the decoder decides ([None]: not valid JSON). *)

Section Json.

Variable JSON : Type.
Variable json_decode : string -> option JSON.

Definition json_loads (s : string) : res JSON :=
  if String.eqb s "" then raise JSONDecodeError
  else match json_decode s with
       | Some v => mret v
       | None => raise JSONDecodeError
       end.

End Json.

(** A [QueryDict] maps a field name to the list of its values; [get]
    returns the last one, or the default for a missing key or an empty
    list. *)
Definition QueryDict_get (querydict : gmap string (list string))
  (key default : string) : string :=
  match querydict !! key with
  | Some values =>
      match last values with
      | Some v => v
      | None => default
      end
  | None => default
  end.

(** ** The data of the module *)

Module Scope.
Record t : Type := mk {
  method : string;
  query_string : string;
  headers : list (string * string)
}.
End Scope.

Module Request.
Record t : Type := mk {
  consumer : Scope.t;
  body : string
}.
End Request.

Module Result.
Record t : Type := mk {
  response : string;
  status : Z;
  content_type : string;
  headers : option (gmap string string)
}.
(** [Result(response=...)] with the dataclass defaults. *)
Definition new (response : string) : t :=
  mk response 200 "application/json" None.
(** [result.status = v] and [result.headers = v] *)
Definition set_status (v : Z) (r : t) : t :=
  mk (response r) v (content_type r) (headers r).
Definition set_headers (v : option (gmap string string)) (r : t) : t :=
  mk (response r) (status r) (content_type r) v.
End Result.

Module TemporalResponse.
Record t : Type := mk {
  status_code : option Z;
  headers : gmap string string
}.
End TemporalResponse.

Record BytesIO : Type := {
  buffer : string;
  position : nat
}.

(** [BytesIO(initial_bytes)]: a new stream positioned at the start. *)
Definition BytesIO_new (initial_bytes : string) : BytesIO :=
  {| buffer := initial_bytes; position := 0 |}.

Record META : Type := {
  CONTENT_TYPE : option string;
  CONTENT_LENGTH : string
}.

Module Form.
Record t (JSON : Type) : Type := mk {
  operations : JSON;
  map : JSON
}.
Arguments mk {JSON} _ _.
Arguments operations {JSON} _.
Arguments map {JSON} _.
End Form.

Module FormData.
Record t (JSON Files : Type) : Type := mk {
  files : Files;
  form : Form.t JSON
}.
Arguments mk {JSON Files} _ _.
Arguments files {JSON Files} _.
Arguments form {JSON Files} _.
End FormData.

(** ** [ChannelsRequestAdapter] *)

Module ChannelsRequestAdapter.

Section Adapter.

Variable str_lower : string -> string.
Variable str_upper : string -> string.
Variable unquote : string -> string.

(** [value[0]] *)
Definition item0 (value : list string) : res string :=
  match value !! 0%nat with
  | Some v => mret v
  | None => raise IndexError
  end.

Definition query_params_add (acc : res (gmap string string))
  (item : string * list string) : res (gmap string string) :=
  query_params ← acc;
  v ← item0 item.2;
  mret (<[item.1 := v]> query_params).

Definition query_params (request : Request.t) : res (gmap string string) :=
  query_params_str ← decode (Scope.query_string (Request.consumer request));
  foldl query_params_add (mret ∅)
    (map_to_list (parse_qs unquote true query_params_str)).

Definition method (request : Request.t) : string :=
  str_upper (Scope.method (Request.consumer request)).

Definition headers_add (acc : res (gmap string string))
  (header : string * string) : res (gmap string string) :=
  d ← acc;
  header_name ← decode header.1;
  header_value ← decode header.2;
  mret (<[str_lower header_name := header_value]> d).

Definition headers (request : Request.t) : res (gmap string string) :=
  foldl headers_add (mret ∅) (Scope.headers (Request.consumer request)).

Definition content_type (request : Request.t) : res (option string) :=
  h ← headers request;
  mret (h !! "content-type").

Definition get_body (request : Request.t) : res string :=
  mret (Request.body request).

Section FormData.

Variables JSON Files UploadHandler : Type.
Variable json_decode : string -> option JSON.
Variable FILE_UPLOAD_HANDLERS : list string.
Variable load_handler : string -> res UploadHandler.
(** [MultiPartParser(META, input_data, upload_handlers).parse()] *)
Variable MultiPartParser_parse :
  META -> BytesIO -> list UploadHandler ->
  res (gmap string (list string) * Files).

Definition get_form_data (request : Request.t) : res (FormData.t JSON Files) :=
  upload_handlers ← mapM load_handler FILE_UPLOAD_HANDLERS;
  h1 ← headers request;
  h2 ← headers request;
  parsed ← MultiPartParser_parse
              {| CONTENT_TYPE := h1 !! "content-type";
                 CONTENT_LENGTH := default "0" (h2 !! "content-length") |}
              (BytesIO_new (Request.body request))
              upload_handlers;
  let '(querydict, files) := parsed in
  operations ← json_loads JSON json_decode (QueryDict_get querydict "operations" "");
  map ← json_loads JSON json_decode (QueryDict_get querydict "map" "");
  mret (FormData.mk files (Form.mk operations map)).

End FormData.

End Adapter.

End ChannelsRequestAdapter.

(** ** Operation types *)

#[global] Instance OperationType_eq_dec : EqDecision OperationType.
Proof. solve_decision. Defined.

Definition OperationType_to_nat (op : OperationType) : nat :=
  match op with QUERY => 0 | MUTATION => 1 | SUBSCRIPTION => 2 end.

Definition OperationType_of_nat (n : nat) : option OperationType :=
  match n with
  | 0 => Some QUERY
  | 1 => Some MUTATION
  | 2 => Some SUBSCRIPTION
  | _ => None
  end.

#[global] Program Instance OperationType_countable : Countable OperationType :=
  inj_countable OperationType_to_nat OperationType_of_nat _.
Next Obligation. by intros []. Qed.

(** Modelled from the spec: [OperationType.from_http] lives in
    [strawberry/types/graphql.py], which is not part of the sources at
    hand.  Section 4.3: POST allows query, mutation and subscription; GET
    allows queries only; section 6: other methods are a "method not
    allowed" error. *)
Definition from_http (method : string) : res (gset OperationType) :=
  if String.eqb method "GET" then mret {[QUERY]}
  else if String.eqb method "POST" then mret {[QUERY; MUTATION; SUBSCRIPTION]}
  else raise MethodNotAllowed.

(** ** [GraphQLHTTPConsumer] *)

Record Consumer : Type := {
  graphiql : bool;
  allow_queries_via_get : bool;
  subscriptions_enabled : bool;
  scope : Scope.t
}.

(** One call of [send_response(status, content, headers=...)]; [None] is
    the call without the [headers] keyword. *)
Record Sent : Type := {
  sent_status : Z;
  sent_content : string;
  sent_headers : option (gmap string string)
}.

Definition send_response (status : Z) (content : string)
  (headers : option (gmap string string)) (outbox : list Sent) : list Sent :=
  outbox ++ [{| sent_status := status; sent_content := content;
                sent_headers := headers |}].

(** Truth value of an optional integer: [None] and [0] are false. *)
Definition truthy (n : option Z) : bool :=
  match n with
  | Some n => negb (n =? 0)%Z
  | None => false
  end.

Module GraphQLHTTPResponse.
Record t (JSON GraphQLError : Type) : Type := mk {
  data : option JSON;
  errors : option (list GraphQLError);
  extensions : option JSON
}.
Arguments mk {JSON GraphQLError} _ _ _.
Arguments data {JSON GraphQLError} _.
Arguments errors {JSON GraphQLError} _.
Arguments extensions {JSON GraphQLError} _.
End GraphQLHTTPResponse.

Module GraphQLHTTPConsumer.

Section Consumer.

Variables JSON GraphQLError : Type.
Variable json_dumps : GraphQLHTTPResponse.t JSON GraphQLError -> res string.
Variable get_graphiql_html : bool -> string.
(** [AsyncBaseHTTPView.run], inherited from the base view. *)
Variable run : Consumer -> Request.t -> res Result.t.

Definition handle (self : Consumer) (body : string) (outbox : list Sent)
  : res (list Sent) :=
  let request := Request.mk (scope self) body in
  match run self request with
  | inr response =>
      let headers :=
        match Result.headers response with
        | None => ∅
        | Some headers => headers
        end in
      let headers :=
        if decide ("Content-Type" ∈ dom headers) then headers
        else <["Content-Type" := encode (Result.content_type response)]> headers in
      let response := Result.set_headers (Some headers) response in
      mret (send_response (Result.status response) (Result.response response)
              (Result.headers response) outbox)
  | inl (HTTPException status_code reason) =>
      mret (send_response status_code (encode reason) None outbox)
  | inl e => raise e
  end.

(** [{k.encode(): v.encode() for k, v in headers.items()}] *)
Definition encode_headers (headers : gmap string string) : gmap string string :=
  list_to_map ((fun kv => (encode kv.1, encode kv.2)) <$> map_to_list headers).

Definition create_response
  (response_data : GraphQLHTTPResponse.t JSON GraphQLError)
  (sub_response : TemporalResponse.t) : res Result.t :=
  dumped ← json_dumps response_data;
  let result := Result.new (encode dumped) in
  let result :=
    match TemporalResponse.status_code sub_response with
    | Some status_code =>
        if truthy (Some status_code) then Result.set_status status_code result
        else result
    | None => result
    end in
  let result :=
    if bool_decide (TemporalResponse.headers sub_response ≠ ∅)
    then Result.set_headers
           (Some (encode_headers (TemporalResponse.headers sub_response))) result
    else result in
  mret result.

Definition get_root_value {RootValue : Type} (request : Request.t)
  : res (option RootValue) :=
  mret None.

Definition get_context (request : Request.t) (response : TemporalResponse.t)
  : Request.t * TemporalResponse.t :=
  (request, response).

Definition render_graphiql (self : Consumer) (request : Request.t) : Result.t :=
  let html := get_graphiql_html (subscriptions_enabled self) in
  Result.mk (encode html) 200 "text/html" None.

End Consumer.

End GraphQLHTTPConsumer.

(** ** [SyncGraphQLHTTPConsumer] *)

Module GraphQLRequestData.
Record t (Variables : Type) : Type := mk {
  query : option string;
  variables : option Variables;
  operation_name : option string
}.
Arguments mk {Variables} _ _ _.
Arguments query {Variables} _.
Arguments variables {Variables} _.
Arguments operation_name {Variables} _.
End GraphQLRequestData.

(** The keyword arguments of [schema.execute_sync]. *)
Module ExecuteArgs.
Record t (Variables RootValue Context : Type) : Type := mk {
  query : option string;
  root_value : RootValue;
  variable_values : option Variables;
  context_value : Context;
  operation_name : option string;
  allowed_operation_types : gset OperationType
}.
Arguments mk {Variables RootValue Context} _ _ _ _ _ _.
Arguments query {Variables RootValue Context} _.
Arguments root_value {Variables RootValue Context} _.
Arguments variable_values {Variables RootValue Context} _.
Arguments context_value {Variables RootValue Context} _.
Arguments operation_name {Variables RootValue Context} _.
Arguments allowed_operation_types {Variables RootValue Context} _.
End ExecuteArgs.

Module SyncGraphQLHTTPConsumer.

Section Sync.

Variables Variables RootValue Context ExecutionResult Response : Type.
(** [self.get_context(self)] and [self.get_root_value(self)] are looked
    up on the consumer's class when [execute] runs and are called with the
    consumer as their only argument; what they return or raise is left
    open. *)
Variable get_context : Consumer -> res Context.
Variable get_root_value : Consumer -> res RootValue.
(** [self.schema.execute_sync] and the base view's [process_result]. *)
Variable execute_sync :
  ExecuteArgs.t Variables RootValue Context -> res ExecutionResult.
Variable process_result : ExecutionResult -> res Response.

Definition execute (self : Consumer)
  (request_data : GraphQLRequestData.t Variables) : res Response :=
  context ← get_context self;
  root_value ← get_root_value self;
  let method := Scope.method (scope self) in
  allowed_operation_types ← from_http method;
  let allowed_operation_types :=
    if negb (allow_queries_via_get self) && String.eqb method "GET"
    then allowed_operation_types ∖ {[QUERY]}
    else allowed_operation_types in
  result ← execute_sync
             (ExecuteArgs.mk
                (GraphQLRequestData.query request_data)
                root_value
                (GraphQLRequestData.variables request_data)
                context
                (GraphQLRequestData.operation_name request_data)
                allowed_operation_types);
  process_result result.

End Sync.

End SyncGraphQLHTTPConsumer.

(** ** The engine's operation-type check *)

Section Engine.

Variables Variables RootValue Context ExecutionResult : Type.
Variable operation_type_of :
  ExecuteArgs.t Variables RootValue Context -> OperationType.
Variable run_resolvers :
  ExecuteArgs.t Variables RootValue Context -> res ExecutionResult.

(** Modelled from the spec: the engine is an external collaborator.
    Section 4.3: the computed set is passed to the engine, which verifies
    that the submitted operation's type is a member; a mismatch fails
    before any resolver runs. *)
Definition checked_execute_sync
  (args : ExecuteArgs.t Variables RootValue Context) : res ExecutionResult :=
  if decide (operation_type_of args ∈ ExecuteArgs.allowed_operation_types args)
  then run_resolvers args
  else raise (InvalidOperationTypeError (operation_type_of args)).

End Engine.

(** ** The base view's handling of a multipart request *)

Section BaseView.

Variables JSON Files : Type.
Variable get_form_data : Request.t -> res (FormData.t JSON Files).
Variable execute_form : Consumer -> FormData.t JSON Files -> res Result.t.
Variable reason : string.


End BaseView.

(** ** The adapter's methods on the objects they reach

    [get_body] and [get_form_data] once more, as the code runs them on
    objects that can change: the request the adapter holds, whose fields
    can be assigned, and the byte streams created so far, each with the
    position its reader has reached.  A method takes the store of these
    objects and returns it as the call leaves it.  The multipart parser
    reads from the stream it is given and leaves it advanced. *)

Record ObjectStore : Type := {
  store_request : Request.t;
  store_streams : list BytesIO
}.

Definition io (A : Type) : Type := ObjectStore -> res A * ObjectStore.

#[global] Instance io_ret : MRet io := fun A a st => (inr a, st).

#[global] Instance io_bind : MBind io :=
  fun A B k m st =>
    match m st with
    | (inl e, st') => (inl e, st')
    | (inr a, st') => k a st'
    end.

(** A step that touches no object. *)
Definition io_lift {A : Type} (r : res A) : io A := fun st => (r, st).

(** [self.request] *)
Definition self_request : io Request.t :=
  fun st => (inr (store_request st), st).

(** [BytesIO(initial_bytes)]: a new stream object; the result is its
    place in the store. *)
Definition BytesIO_alloc (initial_bytes : string) : io nat :=
  fun st =>
    (inr (length (store_streams st)),
     {| store_request := store_request st;
        store_streams := store_streams st ++ [BytesIO_new initial_bytes] |}).

Inductive AdapterCall : Type :=
| CallGetBody
| CallGetFormData.

Inductive AdapterReturn (JSON Files : Type) : Type :=
| ReturnedBody (r : res string)
| ReturnedFormData (r : res (FormData.t JSON Files)).

Arguments ReturnedBody {JSON Files} _.
Arguments ReturnedFormData {JSON Files} _.

Module AdapterObject.

Section Methods.

Variable str_lower : string -> string.
Variables JSON Files UploadHandler : Type.
Variable json_decode : string -> option JSON.
Variable FILE_UPLOAD_HANDLERS : list string.
Variable load_handler : string -> res UploadHandler.
(** [MultiPartParser(META, input_data, upload_handlers).parse()], with the
    stream as the parse leaves it. *)
Variable MultiPartParser_parse :
  META -> BytesIO -> list UploadHandler ->
  res (gmap string (list string) * Files) * BytesIO.

(** The parse, run on the stream object at [input_data]. *)
Definition parser_parse (meta : META) (input_data : nat)
  (upload_handlers : list UploadHandler)
  : io (gmap string (list string) * Files) :=
  fun st =>
    match store_streams st !! input_data with
    | Some stream =>
        let '(parsed, stream') :=
          MultiPartParser_parse meta stream upload_handlers in
        (parsed,
         {| store_request := store_request st;
            store_streams := <[input_data := stream']> (store_streams st) |})
    | None => (raise (ForeignError "ValueError"), st)
    end.

Definition get_body : io string :=
  request ← self_request;
  mret (Request.body request).

Definition get_form_data : io (FormData.t JSON Files) :=
  upload_handlers ← io_lift (mapM load_handler FILE_UPLOAD_HANDLERS);
  request ← self_request;
  h1 ← io_lift (ChannelsRequestAdapter.headers str_lower request);
  request ← self_request;
  h2 ← io_lift (ChannelsRequestAdapter.headers str_lower request);
  request ← self_request;
  input_data ← BytesIO_alloc (Request.body request);
  parsed ← parser_parse
              {| CONTENT_TYPE := h1 !! "content-type";
                 CONTENT_LENGTH := default "0" (h2 !! "content-length") |}
              input_data upload_handlers;
  operations ← io_lift (json_loads JSON json_decode
                          (QueryDict_get parsed.1 "operations" ""));
  map ← io_lift (json_loads JSON json_decode
                   (QueryDict_get parsed.1 "map" ""));
  mret (FormData.mk parsed.2 (Form.mk operations map)).

(** One call of a method, and a sequence of calls, each on the store the
    call before it left. *)
Definition adapter_call (c : AdapterCall) (st : ObjectStore)
  : AdapterReturn JSON Files * ObjectStore :=
  match c with
  | CallGetBody => let '(r, st') := get_body st in (ReturnedBody r, st')
  | CallGetFormData =>
      let '(r, st') := get_form_data st in (ReturnedFormData r, st')
  end.

Fixpoint adapter_calls (cs : list AdapterCall) (st : ObjectStore)
  : list (AdapterReturn JSON Files) * ObjectStore :=
  match cs with
  | [] => ([], st)
  | c :: cs' =>
      let '(r, st') := adapter_call c st in
      let '(rs, st'') := adapter_calls cs' st' in
      (r :: rs, st'')
  end.

End Methods.

End AdapterObject.

(** ** Executable instances of the library functions on ASCII data *)

Definition ascii_lower_char (a : ascii) : ascii :=
  let n := N_of_ascii a in
  if in_range 65 90 n then ascii_of_N (n + 32) else a.

Definition ascii_upper_char (a : ascii) : ascii :=
  let n := N_of_ascii a in
  if in_range 97 122 n then ascii_of_N (n - 32) else a.

Fixpoint string_map (f : ascii -> ascii) (s : string) : string :=
  match s with
  | EmptyString => EmptyString
  | String a s' => String (f a) (string_map f s')
  end.

(** [str.lower] and [str.upper] on ASCII text; other bytes are kept. *)
Definition ascii_lower : string -> string := string_map ascii_lower_char.
Definition ascii_upper : string -> string := string_map ascii_upper_char.

Definition hex_value (a : ascii) : option N :=
  let n := N_of_ascii a in
  if in_range 48 57 n then Some (n - 48)%N
  else if in_range 65 70 n then Some (n - 55)%N
  else if in_range 97 102 n then Some (n - 87)%N
  else None.

(** [urllib.parse.unquote_to_bytes]: an escape [%XY] with two hexadecimal
    digits becomes one byte, any other [%] is kept.  [unquote] decodes the
    result with [errors='replace'], which changes nothing when the bytes
    are well-formed UTF-8. *)
Fixpoint unquote_to_bytes (s : string) : string :=
  match s with
  | EmptyString => EmptyString
  | String a s1 =>
      if Ascii.eqb a "%" then
        match s1 with
        | String h (String l s3) =>
            match hex_value h, hex_value l with
            | Some x, Some y =>
                String (ascii_of_N (16 * x + y)) (unquote_to_bytes s3)
            | _, _ => String a (unquote_to_bytes s1)
            end
        | _ => String a (unquote_to_bytes s1)
        end
      else String a (unquote_to_bytes s1)
  end.

(** The double quote, which a string literal cannot hold directly. *)
Definition dquote : string := String (ascii_of_N 34) EmptyString.

(** [sep.join(parts)] *)
Fixpoint join (sep : string) (parts : list string) : string :=
  match parts with
  | [] => ""
  | [part] => part
  | part :: parts' => part +:+ sep +:+ join sep parts'
  end.

(** [json.dumps] of a response envelope whose members are represented by
    their own JSON texts: the keys that are present, in the order [data],
    [errors], [extensions], with the default separators. *)
Definition json_dumps_text (response_data : GraphQLHTTPResponse.t string string)
  : res string :=
  let member (key : string) (text : option string) : list string :=
    match text with
    | Some text => [dquote +:+ key +:+ dquote +:+ ": " +:+ text]
    | None => []
    end in
  mret ("{" +:+
        join ", "
          (member "data" (GraphQLHTTPResponse.data response_data) ++
           member "errors"
             ((fun errors => "[" +:+ join ", " errors +:+ "]") <$>
                GraphQLHTTPResponse.errors response_data) ++
           member "extensions" (GraphQLHTTPResponse.extensions response_data))
        +:+ "}").


(** A decoder for the JSON texts of the examples: the empty object. *)
Definition json_decode_empty_object (text : string) : option string :=
  if String.eqb text "{}" then Some text else None.

(** A multipart request without a content length and without a body. *)
Definition upload_request : Request.t :=
  Request.mk
    (Scope.mk "POST" ""
       [("Content-Type", "multipart/form-data; boundary=x")]) "".

(** A multipart parser that reads its stream to the end: from a stream at
    its start it returns the two fields of an upload, from a stream that
    was read before it gets nothing and fails. *)
Definition parse_reading (meta : META) (input_data : BytesIO)
  (upload_handlers : list string)
  : res (gmap string (list string) * unit) * BytesIO :=
  if (position input_data =? 0)%nat
  then (mret ({[ "operations" := ["{}"]; "map" := ["{}"] ]}, tt),
        {| buffer := buffer input_data;
           position := String.length (buffer input_data) |})
  else (raise (ForeignError "MultiPartParserError"), input_data).

(** A multipart request with a body. *)
Definition upload_request_with_body : Request.t :=
  Request.mk
    (Scope.mk "POST" ""
       [("Content-Type", "multipart/form-data; boundary=x");
        ("Content-Length", "5")]) "--x--".

(** ** Vocabulary of the statements *)

(** The values that the pairs of a parsed query string give to [key], in
    the order of the query string. *)
Definition values_of (key : string) (pairs : list (string * string))
  : list string :=
  (filter (fun p => p.1 = key) pairs).*2.

(** [has_char c s]: the character [c] occurs in [s]. *)
Fixpoint has_char (c : ascii) (s : string) : bool :=
  match s with
  | EmptyString => false
  | String a s' => Ascii.eqb a c || has_char c s'
  end.

(** A field of a query string that gives [name] a blank value: [name=],
    or the bare [name]. *)
Definition blank_field (name field : string) : Prop :=
  has_char "=" name = false /\
  (field = name +:+ "=" \/ (field = name /\ name ≠ "")).

(** A request whose scope carries the given query string. *)
Definition get_request (query_string : string) : Request.t :=
  Request.mk (Scope.mk "GET" query_string []) "".

(** Two delivered headers that differ at most in the case of the name:
    the lower-cased decoded names agree and the values are equal. *)
Definition same_up_to_case (str_lower : string -> string)
  (a b : string * string) : Prop :=
  str_lower <$> decode a.1 = str_lower <$> decode b.1 /\ a.2 = b.2.



(** The status that [create_response] gives a sub-response. *)
Definition response_status (sub_response : TemporalResponse.t) : Z :=
  match TemporalResponse.status_code sub_response with
  | Some status_code => if (status_code =? 0)%Z then 200%Z else status_code
  | None => 200%Z
  end.

(** The headers that [handle] sends for a response. *)
Definition sent_headers_of (response : Result.t) : gmap string string :=
  let set_headers := default ∅ (Result.headers response) in
  match set_headers !! "Content-Type" with
  | Some _ => set_headers
  | None => <["Content-Type" := Result.content_type response]> set_headers
  end.

(** [is_ascii s]: every byte of [s] is below 128, as in a percent-encoded
    query string. *)
Fixpoint is_ascii (s : string) : bool :=
  match s with
  | EmptyString => true
  | String a s' => (N_of_ascii a <? 128)%N && is_ascii s'
  end.

(** The name and the value that a non-empty field [name=value] (or a bare
    [name]) of a query string stands for. *)
Definition field_name (unquote : string -> string) (field : string) : string :=
  unquote (replace "+" " "
             match partition "=" field with
             | Some (n, _) => n
             | None => field
             end).

Definition field_value (unquote : string -> string) (field : string) : string :=
  unquote (replace "+" " "
             match partition "=" field with
             | Some (_, v) => v
             | None => ""
             end).

(** Both the name and the value of a delivered header are well-formed
    UTF-8. *)
Definition header_decodable (header : string * string) : Prop :=
  utf8_valid header.1 = true /\ utf8_valid header.2 = true.

(** * Properties *)

(** ** The error monad *)

Lemma res_bind_ret {A B : Type} (a : A) (k : A -> res B) :
  (mret a ≫= k) = k a.
Proof. reflexivity. Qed.

Lemma res_bind_raise {A B : Type} (e : exn) (k : A -> res B) :
  (raise e ≫= k) = raise e.
Proof. reflexivity. Qed.

Lemma decode_inv (b s : string) : decode b = inr s -> s = b /\ utf8_valid b = true.
Proof.
  unfold decode. destruct (utf8_valid b); [|discriminate].
  intros [= <-]. done.
Qed.

Lemma decode_valid (b : string) : utf8_valid b = true -> decode b = inr b.
Proof. unfold decode. by intros ->. Qed.

(** ** Query parameters *)

Section QueryParams.

Variable unquote : string -> string.

Lemma values_of_cons key p pairs :
  values_of key (p :: pairs) =
  if decide (p.1 = key) then p.2 :: values_of key pairs else values_of key pairs.
Proof.
  unfold values_of. rewrite filter_cons. by case_decide.
Qed.

Lemma values_of_app key l1 l2 :
  values_of key (l1 ++ l2) = values_of key l1 ++ values_of key l2.
Proof. unfold values_of. by rewrite filter_app, fmap_app. Qed.

Lemma values_of_not_in key pairs : key ∉ pairs.*1 -> values_of key pairs = [].
Proof.
  induction pairs as [|p pairs IH]; [done|].
  rewrite fmap_cons, not_elem_of_cons. intros [Hne Hnot].
  rewrite values_of_cons. case_decide; [congruence|]. by apply IH.
Qed.

Lemma foldl_parse_qs_add_lookup pairs (m : gmap string (list string)) key :
  foldl parse_qs_add m pairs !! key =
  match m !! key with
  | Some old => Some (old ++ values_of key pairs)
  | None =>
      match values_of key pairs with
      | [] => None
      | vs => Some vs
      end
  end.
Proof.
  revert m. induction pairs as [|[name value] pairs IH]; intros m.
  - simpl. destruct (m !! key); [by rewrite app_nil_r|done].
  - simpl foldl. rewrite IH, values_of_cons. simpl.
    unfold parse_qs_add.
    destruct (decide (name = key)) as [->|Hne].
    + destruct (m !! key) as [old|] eqn:Hm.
      * rewrite lookup_insert_eq. by rewrite <- app_assoc.
      * by rewrite lookup_insert_eq.
    + destruct (m !! name) as [old|]; by rewrite lookup_insert_ne.
Qed.

Lemma parse_qs_lookup kb qs key :
  parse_qs unquote kb qs !! key =
  match values_of key (parse_qsl unquote kb qs) with
  | [] => None
  | vs => Some vs
  end.
Proof.
  unfold parse_qs. by rewrite foldl_parse_qs_add_lookup, lookup_empty.
Qed.

Lemma parse_qs_nonempty kb qs key : parse_qs unquote kb qs !! key ≠ Some [].
Proof.
  rewrite parse_qs_lookup. by destruct (values_of _ _).
Qed.

Lemma foldl_query_params_add_raise e items :
  foldl ChannelsRequestAdapter.query_params_add (inl e) items = inl e.
Proof. induction items as [|it items IH]; [done|]. simpl. apply IH. Qed.

Lemma foldl_query_params_add_ok items (acc : gmap string string) :
  Forall (fun it : string * list string => it.2 ≠ []) items ->
  foldl ChannelsRequestAdapter.query_params_add (inr acc) items =
  inr (foldl (fun d (it : string * list string) =>
                <[it.1 := default "" (head it.2)]> d) acc items).
Proof.
  intros Hall. revert acc.
  induction Hall as [|[k vs] items Hne Hall IH]; intros acc; [done|].
  simpl in *. destruct vs as [|v vs]; [done|]. simpl. apply IH.
Qed.

Lemma foldl_insert_head_lookup (items : list (string * list string))
  (acc : gmap string string) key :
  NoDup items.*1 ->
  foldl (fun d (it : string * list string) =>
           <[it.1 := default "" (head it.2)]> d) acc items !! key =
  match list_find (fun it : string * list string => it.1 = key) items with
  | Some (_, it) => Some (default "" (head it.2))
  | None => acc !! key
  end.
Proof.
  revert acc. induction items as [|[k vs] items IH]; intros acc Hnd; [done|].
  rewrite fmap_cons in Hnd. apply NoDup_cons in Hnd as [Hk Hnd].
  simpl foldl. rewrite IH by done. simpl.
  destruct (decide (k = key)) as [->|Hne].
  - simpl. destruct (list_find _ items) as [[i it]|] eqn:Hfind.
    + apply list_find_Some in Hfind as (Hi & Heq & _).
      exfalso. apply Hk. apply list_elem_of_fmap. exists it. split; [done|].
      by eapply list_elem_of_lookup_2.
    + simpl. by rewrite lookup_insert_eq.
  - simpl. destruct (list_find _ items) as [[i it]|]; simpl; [done|].
    by rewrite lookup_insert_ne.
Qed.

Lemma list_to_map_values_of (pairs : list (string * string)) key :
  (list_to_map pairs : gmap string string) !! key = head (values_of key pairs).
Proof.
  induction pairs as [|[k v] pairs IH]; [done|].
  rewrite list_to_map_cons, values_of_cons. simpl.
  case_decide as Hk.
  - subst. by rewrite lookup_insert_eq.
  - by rewrite lookup_insert_ne.
Qed.

Lemma list_to_map_first (before after : list (string * string)) key v :
  key ∉ before.*1 ->
  (list_to_map (before ++ (key, v) :: after) : gmap string string) !! key = Some v.
Proof.
  intros Hnot. rewrite list_to_map_values_of, values_of_app.
  rewrite (values_of_not_in _ _ Hnot), values_of_cons. simpl.
  by case_decide.
Qed.

(** [query_params] is the map that gives every name of the parsed query
    string the value of its first pair. *)
Lemma query_params_spec (request : Request.t) :
  ChannelsRequestAdapter.query_params unquote request =
  (query_params_str ← decode (Scope.query_string (Request.consumer request));
   mret (list_to_map (parse_qsl unquote true query_params_str))).
Proof.
  unfold ChannelsRequestAdapter.query_params.
  destruct (decode _) as [e|s]; [done|]. simpl.
  set (M := parse_qs unquote true s).
  unfold mret, res_ret.
  rewrite foldl_query_params_add_ok.
  2:{ apply Forall_forall. intros [k vs] Hin%elem_of_map_to_list. simpl.
      intros ->. by apply (parse_qs_nonempty true s k). }
  f_equal. apply map_eq. intros key.
  rewrite foldl_insert_head_lookup by apply NoDup_fst_map_to_list.
  rewrite list_to_map_values_of.
  destruct (list_find _ _) as [[i [k vs]]|] eqn:Hfind.
  - apply list_find_Some in Hfind as (Hi & Hk & _). simpl in Hk. subst k.
    apply list_elem_of_lookup_2, elem_of_map_to_list in Hi.
    unfold M in Hi. rewrite parse_qs_lookup in Hi. simpl.
    destruct (values_of key _) as [|v0 vs0]; [done|].
    by injection Hi as <-.
  - rewrite lookup_empty.
    assert (M !! key = None) as HM.
    { destruct (M !! key) as [vs|] eqn:HM; [|done].
      apply elem_of_map_to_list in HM.
      apply list_elem_of_lookup in HM as [i Hi].
      eapply list_find_None in Hfind. rewrite Forall_forall in Hfind.
      exfalso. eapply (Hfind (key, vs)); [by eapply list_elem_of_lookup_2|done]. }
    unfold M in HM. rewrite parse_qs_lookup in HM.
    by destruct (values_of key _).
Qed.

Lemma values_of_elem key v (pairs : list (string * string)) :
  (key, v) ∈ pairs -> v ∈ values_of key pairs.
Proof.
  intros Hin. unfold values_of. apply list_elem_of_fmap.
  exists (key, v). split; [done|]. by apply list_elem_of_filter.
Qed.

Lemma partition_blank name rest :
  has_char "=" name = false ->
  partition "=" (name +:+ String "=" rest) = Some (name, rest).
Proof.
  induction name as [|a name IH]; simpl; [done|].
  intros [Ha Hn]%orb_false_iff. rewrite Ha. by rewrite IH.
Qed.

Lemma partition_none name :
  has_char "=" name = false -> partition "=" name = None.
Proof.
  induction name as [|a name IH]; simpl; [done|].
  intros [Ha Hn]%orb_false_iff. rewrite Ha. by rewrite IH.
Qed.

Lemma parse_qsl_field_blank name field :
  blank_field name field ->
  parse_qsl_field unquote true field =
  [(unquote (replace "+" " " name), unquote "")].
Proof.
  intros [Hno [->|[-> Hne]]]; unfold parse_qsl_field, split1.
  - rewrite partition_blank by done.
    destruct (String.eqb_spec (name +:+ "=") "") as [Heq|_]; [|done].
    by destruct name.
  - rewrite partition_none by done.
    by destruct (String.eqb_spec name "").
Qed.

Lemma parse_qsl_blank name field qs :
  blank_field name field ->
  field ∈ split "&" qs ->
  (unquote (replace "+" " " name), unquote "") ∈ parse_qsl unquote true qs.
Proof.
  intros Hblank Hin. unfold parse_qsl.
  apply list_elem_of_In, in_flat_map. exists field.
  split; [by apply list_elem_of_In|].
  rewrite (parse_qsl_field_blank _ _ Hblank). by left.
Qed.

End QueryParams.

(** ** Headers *)

Section Headers.

Variable str_lower : string -> string.

Lemma foldl_headers_add_raise e l :
  foldl (ChannelsRequestAdapter.headers_add str_lower) (inl e) l = inl e.
Proof. induction l as [|x l IH]; [done|]. simpl. apply IH. Qed.

Lemma foldl_headers_add_inv l : forall (acc h : gmap string string),
  foldl (ChannelsRequestAdapter.headers_add str_lower) (inr acc) l = inr h ->
  (forall key, key ∈ dom h ->
     key ∈ dom acc \/
     exists name value, (name, value) ∈ l /\ key = str_lower name) /\
  (forall name value, (name, value) ∈ l -> str_lower name ∈ dom h) /\
  dom acc ⊆ dom h.
Proof.
  induction l as [|[n v] l IH]; intros acc h Hfold.
  - simpl in Hfold. injection Hfold as <-.
    split; [by left|]. split; [|done].
    intros name value Hin. by apply elem_of_nil in Hin.
  - simpl in Hfold. unfold decode in Hfold.
    destruct (utf8_valid n); simpl in Hfold;
      [|by rewrite foldl_headers_add_raise in Hfold].
    destruct (utf8_valid v); simpl in Hfold;
      [|by rewrite foldl_headers_add_raise in Hfold].
    apply IH in Hfold as (Hkeys & Hall & Hsub).
    rewrite dom_insert_L in Hkeys, Hsub.
    split; [|split].
    + intros key Hkey. destruct (Hkeys key Hkey) as [Hacc|(name & value & Hin & ->)].
      * apply elem_of_union in Hacc as [->%elem_of_singleton|Hacc]; [|by left].
        right. exists n, v. split; [apply list_elem_of_here|done].
      * right. exists name, value. split; [by apply list_elem_of_further|done].
    + intros name value [[= -> ->]|Hin]%elem_of_cons.
      * apply Hsub, elem_of_union_l. by apply elem_of_singleton.
      * by eapply Hall.
    + intros key Hkey. by apply Hsub, elem_of_union_r.
Qed.

Lemma headers_add_same_up_to_case acc a b :
  same_up_to_case str_lower a b ->
  ChannelsRequestAdapter.headers_add str_lower acc a =
  ChannelsRequestAdapter.headers_add str_lower acc b.
Proof.
  intros [Hname Hvalue]. unfold ChannelsRequestAdapter.headers_add.
  rewrite Hvalue. destruct acc as [e|d]; [done|]. simpl.
  destruct (decode a.1) as [ea|na], (decode b.1) as [eb|nb]; simpl in *;
    try discriminate.
  - by injection Hname as ->.
  - by injection Hname as ->.
Qed.

Lemma foldl_headers_add_same_up_to_case l l' :
  Forall2 (same_up_to_case str_lower) l l' ->
  forall acc,
    foldl (ChannelsRequestAdapter.headers_add str_lower) acc l =
    foldl (ChannelsRequestAdapter.headers_add str_lower) acc l'.
Proof.
  induction 1 as [|a b l l' Hab Hl IH]; intros acc; [done|].
  simpl. rewrite (headers_add_same_up_to_case acc a b Hab). apply IH.
Qed.

End Headers.

Lemma ascii_lower_char_idem (a : ascii) :
  ascii_lower_char (ascii_lower_char a) = ascii_lower_char a.
Proof. by destruct a as [[] [] [] [] [] [] [] []]. Qed.

Lemma ascii_lower_idem (s : string) : ascii_lower (ascii_lower s) = ascii_lower s.
Proof.
  induction s as [|a s IH]; [done|].
  unfold ascii_lower in *. simpl. by rewrite ascii_lower_char_idem, IH.
Qed.

(** C2.  When a key occurs more than once in the query string,
    [query_params] keeps the value of its first occurrence only: if the
    pair [(key, v)] is the first pair of the parsed query string with that
    key, the result maps [key] to [v], whatever pairs follow (further
    pairs of the same key included).  In particular the query string
    [variables=%7B%22a%22%3A1%7D&variables=%7B%22a%22%3A2%7D] yields
    [variables] bound to the text [{"a":1}] and nothing else. *)
Theorem query_params_first_occurrence_wins :
  (forall (unquote : string -> string) (request : Request.t)
          (before after : list (string * string)) (key v : string),
      utf8_valid (Scope.query_string (Request.consumer request)) = true ->
      parse_qsl unquote true (Scope.query_string (Request.consumer request)) =
        before ++ (key, v) :: after ->
      key ∉ before.*1 ->
      exists params : gmap string string,
        ChannelsRequestAdapter.query_params unquote request = inr params /\
        params !! key = Some v) /\
  ChannelsRequestAdapter.query_params unquote_to_bytes
    (get_request "variables=%7B%22a%22%3A1%7D&variables=%7B%22a%22%3A2%7D") =
  inr {[ "variables" := "{" +:+ dquote +:+ "a" +:+ dquote +:+ ":1}" ]}.
Proof.
  split.
  - intros unquote request before after key v Hvalid Hpairs Hfirst.
    rewrite query_params_spec, (decode_valid _ Hvalid). simpl.
    eexists. split; [reflexivity|].
    rewrite Hpairs. by apply list_to_map_first.
  - rewrite query_params_spec. reflexivity.
Qed.

Lemma query_params_first_occurrence_wins_witness :
  exists params : gmap string string,
    ChannelsRequestAdapter.query_params unquote_to_bytes
      (get_request "a=1&b=2&a=3") = inr params /\
    params !! "a" = Some "1".
Proof.
  apply (proj1 query_params_first_occurrence_wins unquote_to_bytes
           (get_request "a=1&b=2&a=3") [] [("b", "2"); ("a", "3")] "a" "1").
  - reflexivity.
  - reflexivity.
  - simpl. apply not_elem_of_nil.
Defined.

(** C10, as stated, fails: in [query=a&query=] the key [query] has a
    blank value, yet [query_params] maps it to [a], the value of its
    first occurrence. *)
Lemma query_params_blank_value_shadowed :
  blank_field "query" "query=" /\
  "query=" ∈ split "&" "query=a&query=" /\
  ChannelsRequestAdapter.query_params unquote_to_bytes
    (get_request "query=a&query=") = inr {[ "query" := "a" ]} /\
  ({[ "query" := "a" ]} : gmap string string) !! "query" ≠ Some "".
Proof.
  split; [|split; [|split]].
  - split; [reflexivity|]. by left.
  - simpl. apply list_elem_of_In. simpl. tauto.
  - rewrite query_params_spec. reflexivity.
  - by rewrite lookup_singleton_eq.
Qed.

(** C10, amended.  A key that the query string gives a blank value (a
    field [key=] or a bare [key]) is never omitted from [query_params],
    because the parse keeps blank values; it is mapped to the empty string
    when that blank field is the key's first occurrence. *)
Theorem query_params_keeps_blank_values
  (unquote : string -> string) (request : Request.t) (name field : string) :
  unquote "" = "" ->
  utf8_valid (Scope.query_string (Request.consumer request)) = true ->
  blank_field name field ->
  field ∈ split "&" (Scope.query_string (Request.consumer request)) ->
  exists params : gmap string string,
    ChannelsRequestAdapter.query_params unquote request = inr params /\
    unquote (replace "+" " " name) ∈ dom params /\
    (forall fields_before fields_after,
        split "&" (Scope.query_string (Request.consumer request)) =
          fields_before ++ field :: fields_after ->
        unquote (replace "+" " " name) ∉
          (flat_map (parse_qsl_field unquote true) fields_before).*1 ->
        params !! unquote (replace "+" " " name) = Some "").
Proof.
  intros Hempty Hvalid Hblank Hin.
  rewrite query_params_spec, (decode_valid _ Hvalid). simpl.
  eexists. split; [reflexivity|]. split.
  - apply elem_of_dom. rewrite list_to_map_values_of.
    pose proof (parse_qsl_blank unquote _ _ _ Hblank Hin) as Hpair.
    apply values_of_elem in Hpair.
    destruct (values_of _ _); [by apply elem_of_nil in Hpair|by eexists].
  - intros fields_before fields_after Hfields Hfirst.
    unfold parse_qsl. rewrite Hfields, flat_map_app. simpl.
    rewrite (parse_qsl_field_blank unquote _ _ Hblank), Hempty. simpl.
    by apply list_to_map_first.
Qed.

Lemma query_params_keeps_blank_values_witness :
  exists params : gmap string string,
    ChannelsRequestAdapter.query_params unquote_to_bytes
      (get_request "a=1&query=") = inr params /\
    "query" ∈ dom params /\
    (forall fields_before fields_after,
        split "&" "a=1&query=" = fields_before ++ "query=" :: fields_after ->
        "query" ∉ (flat_map (parse_qsl_field unquote_to_bytes true) fields_before).*1 ->
        params !! "query" = Some "").
Proof.
  apply (query_params_keeps_blank_values unquote_to_bytes
           (get_request "a=1&query=") "query" "query=").
  - reflexivity.
  - reflexivity.
  - split; [reflexivity|]. by left.
  - simpl. apply list_elem_of_In. simpl. tauto.
Defined.

(** C7.  Every key of the adapter's [headers] mapping is lower-cased: it
    is the lower-casing of a delivered header name and lower-casing leaves
    it unchanged; every delivered name is found under its lower-cased
    form; [content_type] is the entry under the lower-case key
    [content-type]; and a request whose header names differ from this
    one's at most in case has the same mapping and the same content
    type. *)
Theorem headers_keys_lower_cased
  (str_lower : string -> string) (request : Request.t)
  (h : gmap string string) :
  (forall s, str_lower (str_lower s) = str_lower s) ->
  ChannelsRequestAdapter.headers str_lower request = inr h ->
  (forall key, key ∈ dom h ->
     str_lower key = key /\
     exists name value,
       (name, value) ∈ Scope.headers (Request.consumer request) /\
       key = str_lower name) /\
  (forall name value,
     (name, value) ∈ Scope.headers (Request.consumer request) ->
     is_Some (h !! str_lower name)) /\
  ChannelsRequestAdapter.content_type str_lower request =
    inr (h !! "content-type") /\
  (forall request' : Request.t,
     Forall2 (same_up_to_case str_lower)
       (Scope.headers (Request.consumer request))
       (Scope.headers (Request.consumer request')) ->
     ChannelsRequestAdapter.headers str_lower request' = inr h /\
     ChannelsRequestAdapter.content_type str_lower request' =
       inr (h !! "content-type")).
Proof.
  intros Hidem Hh.
  pose proof Hh as Hinv. unfold ChannelsRequestAdapter.headers in Hinv.
  apply foldl_headers_add_inv in Hinv as (Hkeys & Hall & _).
  split; [|split; [|split]].
  - intros key Hkey.
    destruct (Hkeys key Hkey) as [Hempty|(name & value & Hin & ->)].
    + by rewrite dom_empty_L in Hempty.
    + split; [apply Hidem|]. by exists name, value.
  - intros name value Hin. apply elem_of_dom. by eapply Hall.
  - unfold ChannelsRequestAdapter.content_type. by rewrite Hh.
  - intros request' Hsame.
    assert (ChannelsRequestAdapter.headers str_lower request' = inr h) as Hh'.
    { unfold ChannelsRequestAdapter.headers in *.
      by rewrite <- (foldl_headers_add_same_up_to_case str_lower _ _ Hsame). }
    split; [done|].
    unfold ChannelsRequestAdapter.content_type. by rewrite Hh'.
Qed.

Lemma headers_keys_lower_cased_witness :
  let request :=
    Request.mk (Scope.mk "POST" ""
                  [("Content-Type", "text/plain"); ("ACCEPT", "*/*")]) "" in
  let h : gmap string string :=
    {[ "content-type" := "text/plain"; "accept" := "*/*" ]} in
  (forall key, key ∈ dom h ->
     ascii_lower key = key /\
     exists name value,
       (name, value) ∈ Scope.headers (Request.consumer request) /\
       key = ascii_lower name) /\
  (forall name value,
     (name, value) ∈ Scope.headers (Request.consumer request) ->
     is_Some (h !! ascii_lower name)) /\
  ChannelsRequestAdapter.content_type ascii_lower request =
    inr (h !! "content-type") /\
  (forall request' : Request.t,
     Forall2 (same_up_to_case ascii_lower)
       (Scope.headers (Request.consumer request))
       (Scope.headers (Request.consumer request')) ->
     ChannelsRequestAdapter.headers ascii_lower request' = inr h /\
     ChannelsRequestAdapter.content_type ascii_lower request' =
       inr (h !! "content-type")).
Proof.
  intros request h.
  apply (headers_keys_lower_cased ascii_lower request h).
  - exact ascii_lower_idem.
  - reflexivity.
Defined.

(** ** Building and sending the response *)

Lemma encode_headers_id (headers : gmap string string) :
  GraphQLHTTPConsumer.encode_headers headers = headers.
Proof.
  unfold GraphQLHTTPConsumer.encode_headers, encode.
  rewrite (list_fmap_ext _ id (map_to_list headers)) by (by intros i [k v]).
  rewrite list_fmap_id. apply list_to_map_to_list.
Qed.

Lemma create_response_ok {JSON GraphQLError : Type}
  (json_dumps : GraphQLHTTPResponse.t JSON GraphQLError -> res string)
  (response_data : GraphQLHTTPResponse.t JSON GraphQLError)
  (sub_response : TemporalResponse.t) (dumped : string) :
  json_dumps response_data = inr dumped ->
  GraphQLHTTPConsumer.create_response JSON GraphQLError json_dumps
    response_data sub_response =
  inr (Result.mk (encode dumped) (response_status sub_response)
         "application/json"
         (if decide (TemporalResponse.headers sub_response = ∅) then None
          else Some (TemporalResponse.headers sub_response))).
Proof.
  intros Hdumps. unfold GraphQLHTTPConsumer.create_response, response_status.
  rewrite Hdumps. simpl. rewrite encode_headers_id.
  destruct (TemporalResponse.status_code sub_response) as [n|]; simpl;
    [destruct (n =? 0)%Z; simpl|];
    (case_bool_decide; case_decide; done).
Qed.

(** C4, as stated, fails: a sub-response whose status code was set to [0]
    gives a [Result] with status [200]. *)
Lemma create_response_zero_status_code :
  TemporalResponse.status_code (TemporalResponse.mk (Some 0%Z) ∅) = Some 0%Z /\
  Result.status <$>
    GraphQLHTTPConsumer.create_response string string json_dumps_text
      (GraphQLHTTPResponse.mk (Some "null") None None)
      (TemporalResponse.mk (Some 0%Z) ∅) = inr 200%Z.
Proof. split; reflexivity. Qed.

(** C4, amended.  The built [Result]'s status code equals
    [sub_response.status_code] when the resolvers set a non-zero one, and
    200 otherwise (when it is unset or 0); it is the same for every
    payload, whether or not the payload carries errors. *)
Theorem create_response_status {JSON GraphQLError : Type}
  (json_dumps : GraphQLHTTPResponse.t JSON GraphQLError -> res string)
  (response_data : GraphQLHTTPResponse.t JSON GraphQLError)
  (sub_response : TemporalResponse.t) (dumped : string) :
  json_dumps response_data = inr dumped ->
  exists result : Result.t,
    GraphQLHTTPConsumer.create_response JSON GraphQLError json_dumps
      response_data sub_response = inr result /\
    Result.response result = encode dumped /\
    Result.status result =
      match TemporalResponse.status_code sub_response with
      | Some status_code => if (status_code =? 0)%Z then 200%Z else status_code
      | None => 200%Z
      end /\
    (forall (other_data : GraphQLHTTPResponse.t JSON GraphQLError)
            (other : Result.t),
        GraphQLHTTPConsumer.create_response JSON GraphQLError json_dumps
          other_data sub_response = inr other ->
        Result.status other = Result.status result).
Proof.
  intros Hdumps. eexists. split; [by apply create_response_ok|].
  split; [done|]. split; [done|].
  intros other_data other Hother.
  destruct (json_dumps other_data) as [e|dumped'] eqn:Hdumps'.
  - unfold GraphQLHTTPConsumer.create_response in Hother.
    by rewrite Hdumps' in Hother.
  - rewrite (create_response_ok _ _ _ _ Hdumps') in Hother.
    by injection Hother as <-.
Qed.

Lemma create_response_status_witness :
  exists result : Result.t,
    GraphQLHTTPConsumer.create_response string string json_dumps_text
      (GraphQLHTTPResponse.mk (Some "null") (Some ["{}"]) None)
      (TemporalResponse.mk (Some 418%Z) ∅) = inr result /\
    Result.response result =
      encode ("{" +:+ dquote +:+ "data" +:+ dquote +:+ ": null, " +:+
              dquote +:+ "errors" +:+ dquote +:+ ": [{}]}") /\
    Result.status result = 418%Z /\
    (forall (other_data : GraphQLHTTPResponse.t string string)
            (other : Result.t),
        GraphQLHTTPConsumer.create_response string string json_dumps_text
          other_data (TemporalResponse.mk (Some 418%Z) ∅) = inr other ->
        Result.status other = Result.status result).
Proof.
  apply (create_response_status json_dumps_text
           (GraphQLHTTPResponse.mk (Some "null") (Some ["{}"]) None)
           (TemporalResponse.mk (Some 418%Z) ∅)).
  reflexivity.
Defined.

Lemma sent_headers_of_lookup (response : Result.t) (key : string) :
  sent_headers_of response !! key =
  if decide (key = "Content-Type")
  then Some (default (Result.content_type response)
               (default ∅ (Result.headers response) !! "Content-Type"))
  else default ∅ (Result.headers response) !! key.
Proof.
  unfold sent_headers_of.
  destruct (default ∅ (Result.headers response) !! "Content-Type") as [v|] eqn:Hct.
  - case_decide; [by subst|done].
  - case_decide; [subst; by rewrite lookup_insert_eq|by rewrite lookup_insert_ne].
Qed.

Lemma handle_ok (run : Consumer -> Request.t -> res Result.t)
  (self : Consumer) (body : string) (outbox : list Sent) (response : Result.t) :
  run self (Request.mk (scope self) body) = inr response ->
  GraphQLHTTPConsumer.handle run self body outbox =
  inr (outbox ++ [{| sent_status := Result.status response;
                     sent_content := Result.response response;
                     sent_headers := Some (sent_headers_of response) |}]).
Proof.
  intros Hrun. unfold GraphQLHTTPConsumer.handle, sent_headers_of, send_response.
  rewrite Hrun. simpl. unfold encode.
  destruct (Result.headers response) as [headers|]; simpl.
  - case_decide as Hdom.
    + apply elem_of_dom in Hdom as [v ->]. done.
    + apply not_elem_of_dom in Hdom. by rewrite Hdom.
  - case_decide as Hdom; [by rewrite dom_empty_L in Hdom|].
    by rewrite lookup_empty.
Qed.

Lemma handle_http_error (run : Consumer -> Request.t -> res Result.t)
  (self : Consumer) (body : string) (outbox : list Sent)
  (status_code : Z) (reason : string) :
  run self (Request.mk (scope self) body) =
    inl (HTTPException status_code reason) ->
  GraphQLHTTPConsumer.handle run self body outbox =
  inr (send_response status_code (encode reason) None outbox).
Proof.
  intros Hrun. unfold GraphQLHTTPConsumer.handle. by rewrite Hrun.
Qed.

(** C5.  When the request is processed successfully, the headers that are
    sent are the headers of the built response (those the resolvers set on
    the sub-response, when the response comes from [create_response]),
    every one with its own value, plus a [Content-Type] equal to the
    response's [content_type] only when the response has no [Content-Type]
    header; a [Content-Type] set by the resolvers is sent unchanged. *)
Theorem handle_default_content_type {JSON GraphQLError : Type}
  (json_dumps : GraphQLHTTPResponse.t JSON GraphQLError -> res string)
  (run : Consumer -> Request.t -> res Result.t)
  (self : Consumer) (body : string) (outbox : list Sent)
  (response : Result.t) :
  run self (Request.mk (scope self) body) = inr response ->
  exists sent : gmap string string,
    GraphQLHTTPConsumer.handle run self body outbox =
      inr (outbox ++ [{| sent_status := Result.status response;
                         sent_content := Result.response response;
                         sent_headers := Some sent |}]) /\
    (forall key value,
        default ∅ (Result.headers response) !! key = Some value ->
        sent !! key = Some value) /\
    (forall key, key ≠ "Content-Type" ->
        sent !! key = default ∅ (Result.headers response) !! key) /\
    sent !! "Content-Type" =
      Some (default (encode (Result.content_type response))
              (default ∅ (Result.headers response) !! "Content-Type")) /\
    (forall (response_data : GraphQLHTTPResponse.t JSON GraphQLError)
            (sub_response : TemporalResponse.t),
        GraphQLHTTPConsumer.create_response JSON GraphQLError json_dumps
          response_data sub_response = inr response ->
        default ∅ (Result.headers response) =
          TemporalResponse.headers sub_response /\
        Result.content_type response = "application/json").
Proof.
  intros Hrun. exists (sent_headers_of response).
  split; [by apply handle_ok|]. split; [|split; [|split]].
  - intros key value Hset. rewrite sent_headers_of_lookup.
    case_decide; [subst; by rewrite Hset|done].
  - intros key Hne. rewrite sent_headers_of_lookup. by case_decide.
  - rewrite sent_headers_of_lookup. by case_decide.
  - intros response_data sub_response Hcreate.
    destruct (json_dumps response_data) as [e|dumped] eqn:Hdumps.
    + unfold GraphQLHTTPConsumer.create_response in Hcreate.
      by rewrite Hdumps in Hcreate.
    + rewrite (create_response_ok _ _ _ _ Hdumps) in Hcreate.
      injection Hcreate as <-. simpl. split; [|done].
      by case_decide.
Qed.

Lemma handle_default_content_type_witness :
  exists sent : gmap string string,
    GraphQLHTTPConsumer.handle
      (fun _ _ => inr (Result.mk "{}" 200 "application/json"
                         (Some {[ "Set-Cookie" := "a=b" ]})))
      (Build_Consumer true true true (Scope.mk "POST" "" [])) "{}" [] =
      inr ([] ++ [{| sent_status := 200; sent_content := "{}";
                     sent_headers := Some sent |}]) /\
    (forall key value,
        default ∅ (Some ({[ "Set-Cookie" := "a=b" ]} : gmap string string))
          !! key = Some value ->
        sent !! key = Some value) /\
    (forall key, key ≠ "Content-Type" ->
        sent !! key =
        default ∅ (Some ({[ "Set-Cookie" := "a=b" ]} : gmap string string))
          !! key) /\
    sent !! "Content-Type" =
      Some (default (encode "application/json")
              (default ∅ (Some ({[ "Set-Cookie" := "a=b" ]} : gmap string string))
                 !! "Content-Type")) /\
    (forall (response_data : GraphQLHTTPResponse.t string string)
            (sub_response : TemporalResponse.t),
        GraphQLHTTPConsumer.create_response string string json_dumps_text
          response_data sub_response =
          inr (Result.mk "{}" 200 "application/json"
                 (Some {[ "Set-Cookie" := "a=b" ]})) ->
        default ∅ (Some ({[ "Set-Cookie" := "a=b" ]} : gmap string string)) =
          TemporalResponse.headers sub_response /\
        "application/json" = "application/json").
Proof.
  apply (handle_default_content_type json_dumps_text
           (fun _ _ => inr (Result.mk "{}" 200 "application/json"
                              (Some {[ "Set-Cookie" := "a=b" ]})))
           (Build_Consumer true true true (Scope.mk "POST" "" [])) "{}" []
           (Result.mk "{}" 200 "application/json"
              (Some {[ "Set-Cookie" := "a=b" ]}))).
  reflexivity.
Defined.

(** C6.  When processing the request raises an [HTTPException], the
    consumer sends one response whose status is the exception's
    [status_code] and whose body is the exception's reason encoded to
    bytes; the call passes no headers, so no JSON body is built and no
    default [Content-Type] is added. *)
Theorem handle_http_exception
  (run : Consumer -> Request.t -> res Result.t)
  (self : Consumer) (body : string) (outbox : list Sent)
  (status_code : Z) (reason : string) :
  run self (Request.mk (scope self) body) =
    inl (HTTPException status_code reason) ->
  GraphQLHTTPConsumer.handle run self body outbox =
  inr (outbox ++ [{| sent_status := status_code;
                     sent_content := encode reason;
                     sent_headers := None |}]).
Proof. apply handle_http_error. Qed.

Lemma handle_http_exception_witness :
  GraphQLHTTPConsumer.handle
    (fun _ _ => inl (HTTPException 405 "GraphQL only supports GET and POST requests."))
    (Build_Consumer true true true (Scope.mk "PUT" "" [])) "" [] =
  inr ([] ++ [{| sent_status := 405;
                 sent_content := encode "GraphQL only supports GET and POST requests.";
                 sent_headers := None |}]).
Proof.
  apply (handle_http_exception
           (fun _ _ => inl (HTTPException 405 "GraphQL only supports GET and POST requests."))
           (Build_Consumer true true true (Scope.mk "PUT" "" [])) "" []
           405 "GraphQL only supports GET and POST requests.").
  reflexivity.
Defined.

(** C8.  [render_graphiql] returns a [Result] with content type
    [text/html] and status 200 whose body is the page for the consumer's
    [subscriptions_enabled] flag: the request does not enter the result,
    and two consumers with the same flag render the same result.  Sent
    through [handle], it goes out with status 200 and the header
    [Content-Type: text/html]. *)
Theorem render_graphiql_html
  (get_graphiql_html : bool -> string) (self : Consumer) (request : Request.t) :
  GraphQLHTTPConsumer.render_graphiql get_graphiql_html self request =
    Result.mk (encode (get_graphiql_html (subscriptions_enabled self)))
      200 "text/html" None /\
  Result.content_type
    (GraphQLHTTPConsumer.render_graphiql get_graphiql_html self request) =
    "text/html" /\
  Result.status
    (GraphQLHTTPConsumer.render_graphiql get_graphiql_html self request) =
    200%Z /\
  (forall (self' : Consumer) (request' : Request.t),
      subscriptions_enabled self' = subscriptions_enabled self ->
      GraphQLHTTPConsumer.render_graphiql get_graphiql_html self' request' =
      GraphQLHTTPConsumer.render_graphiql get_graphiql_html self request) /\
  (forall (run : Consumer -> Request.t -> res Result.t) (body : string)
          (outbox : list Sent),
      run self (Request.mk (scope self) body) =
        inr (GraphQLHTTPConsumer.render_graphiql get_graphiql_html self
               (Request.mk (scope self) body)) ->
      GraphQLHTTPConsumer.handle run self body outbox =
      inr (outbox ++
           [{| sent_status := 200;
               sent_content := encode (get_graphiql_html (subscriptions_enabled self));
               sent_headers := Some {[ "Content-Type" := "text/html" ]} |}])).
Proof.
  split; [done|]. split; [done|]. split; [done|]. split.
  - intros self' request' Hflag.
    unfold GraphQLHTTPConsumer.render_graphiql. by rewrite Hflag.
  - intros run body outbox Hrun. by rewrite (handle_ok _ _ _ _ _ Hrun).
Qed.

(** ** Allowed operation types *)

Lemma get_without_query : ({[QUERY]} : gset OperationType) ∖ {[QUERY]} = ∅.
Proof. set_solver. Qed.

(** C1.  For a consumer whose scope has method [GET] and whose
    [allow_queries_via_get] flag is false, [execute] calls the engine with
    the empty set of allowed operation types.  No operation type is a
    member of that set, so an engine that checks membership before it
    runs resolvers rejects every operation, a query included, and runs
    none of them. *)
Theorem sync_execute_get_allows_nothing
  {Variables RootValue Context ExecutionResult Response : Type}
  (get_context : Consumer -> res Context)
  (get_root_value : Consumer -> res RootValue)
  (process_result : ExecutionResult -> res Response)
  (self : Consumer) (request_data : GraphQLRequestData.t Variables) :
  allow_queries_via_get self = false ->
  Scope.method (scope self) = "GET" ->
  (forall execute_sync :
            ExecuteArgs.t Variables RootValue Context -> res ExecutionResult,
      SyncGraphQLHTTPConsumer.execute Variables RootValue Context
        ExecutionResult Response get_context get_root_value execute_sync
        process_result self request_data =
      (context ← get_context self;
       root_value ← get_root_value self;
       result ← execute_sync
                  (ExecuteArgs.mk
                     (GraphQLRequestData.query request_data)
                     root_value
                     (GraphQLRequestData.variables request_data)
                     context
                     (GraphQLRequestData.operation_name request_data)
                     ∅);
       process_result result)) /\
  (forall operation_type : OperationType,
      operation_type ∉ (∅ : gset OperationType)) /\
  (forall (operation_type_of :
             ExecuteArgs.t Variables RootValue Context -> OperationType)
          (run_resolvers :
             ExecuteArgs.t Variables RootValue Context -> res ExecutionResult),
      SyncGraphQLHTTPConsumer.execute Variables RootValue Context
        ExecutionResult Response get_context get_root_value
        (checked_execute_sync Variables RootValue Context ExecutionResult
           operation_type_of run_resolvers)
        process_result self request_data =
      (context ← get_context self;
       root_value ← get_root_value self;
       raise (InvalidOperationTypeError
                (operation_type_of
                   (ExecuteArgs.mk
                      (GraphQLRequestData.query request_data)
                      root_value
                      (GraphQLRequestData.variables request_data)
                      context
                      (GraphQLRequestData.operation_name request_data)
                      ∅))))).
Proof.
  intros Hflag Hmethod.
  assert (forall execute_sync :
            ExecuteArgs.t Variables RootValue Context -> res ExecutionResult,
      SyncGraphQLHTTPConsumer.execute Variables RootValue Context
        ExecutionResult Response get_context get_root_value execute_sync
        process_result self request_data =
      (context ← get_context self;
       root_value ← get_root_value self;
       result ← execute_sync
                  (ExecuteArgs.mk
                     (GraphQLRequestData.query request_data)
                     root_value
                     (GraphQLRequestData.variables request_data)
                     context
                     (GraphQLRequestData.operation_name request_data)
                     ∅);
       process_result result)) as Hexecute.
  { intros execute_sync. unfold SyncGraphQLHTTPConsumer.execute.
    rewrite Hflag, Hmethod. simpl.
    destruct (get_context self) as [e|context]; [done|]. simpl.
    destruct (get_root_value self) as [e|root_value]; [done|]. simpl.
    by rewrite get_without_query. }
  split; [done|]. split; [intros operation_type; apply not_elem_of_empty|].
  intros operation_type_of run_resolvers. rewrite Hexecute.
  destruct (get_context self) as [e|context]; [done|]. simpl.
  destruct (get_root_value self) as [e|root_value]; [done|]. simpl.
  unfold checked_execute_sync. simpl.
  case_decide as Hin; [by apply not_elem_of_empty in Hin|done].
Qed.

Lemma sync_execute_get_allows_nothing_witness :
  SyncGraphQLHTTPConsumer.execute string (option string) Consumer string string
    (fun self => mret self) (fun _ => mret None)
    (checked_execute_sync string (option string) Consumer string
       (fun _ => QUERY) (fun _ => mret "{}"))
    (fun result => mret result)
    (Build_Consumer true false true (Scope.mk "GET" "query=%7Bhello%7D" []))
    (GraphQLRequestData.mk (Some "{hello}") None None) =
  raise (InvalidOperationTypeError QUERY).
Proof.
  exact (proj2 (proj2
    (sync_execute_get_allows_nothing
       (Variables := string) (RootValue := option string)
       (Context := Consumer) (ExecutionResult := string) (Response := string)
       (fun self => mret self) (fun _ => mret None)
       (fun result => mret result)
       (Build_Consumer true false true (Scope.mk "GET" "query=%7Bhello%7D" []))
       (GraphQLRequestData.mk (Some "{hello}") None None)
       eq_refl eq_refl))
    (fun _ => QUERY) (fun _ => mret "{}")).
Defined.

(** ** Multipart form data *)






(** ** The captured body *)

Lemma lookup_snoc_length {A : Type} (l : list A) (x : A) :
  (l ++ [x]) !! length l = Some x.
Proof. induction l as [|a l IH]; [done|]. simpl. apply IH. Qed.

Lemma insert_snoc_length {A : Type} (l : list A) (x y : A) :
  <[length l := y]> (l ++ [x]) = l ++ [y].
Proof. induction l as [|a l IH]; [done|]. simpl. by rewrite IH. Qed.

Section CapturedBody.

Context {JSON Files UploadHandler : Type}.
Variable str_lower : string -> string.
Variable json_decode : string -> option JSON.
Variable FILE_UPLOAD_HANDLERS : list string.
Variable load_handler : string -> res UploadHandler.
Variable MultiPartParser_parse :
  META -> BytesIO -> list UploadHandler ->
  res (gmap string (list string) * Files) * BytesIO.

Let get_form_data : io (FormData.t JSON Files) :=
  AdapterObject.get_form_data str_lower JSON Files UploadHandler json_decode
    FILE_UPLOAD_HANDLERS load_handler MultiPartParser_parse.

Let form_data_of (request : Request.t) : res (FormData.t JSON Files) :=
  ChannelsRequestAdapter.get_form_data str_lower JSON Files UploadHandler
    json_decode FILE_UPLOAD_HANDLERS load_handler
    (fun meta input_data upload_handlers =>
       (MultiPartParser_parse meta input_data upload_handlers).1)
    request.

(** What [get_form_data] does to the store: nothing when it fails before
    the parse; otherwise one new stream, in the state in which the parser
    left it. *)
Lemma get_form_data_store (st : ObjectStore) :
  get_form_data st =
  (form_data_of (store_request st),
   match mapM load_handler FILE_UPLOAD_HANDLERS,
         ChannelsRequestAdapter.headers str_lower (store_request st) with
   | inr upload_handlers, inr h =>
       {| store_request := store_request st;
          store_streams :=
            store_streams st ++
            [(MultiPartParser_parse
                {| CONTENT_TYPE := h !! "content-type";
                   CONTENT_LENGTH := default "0" (h !! "content-length") |}
                (BytesIO_new (Request.body (store_request st)))
                upload_handlers).2] |}
   | _, _ => st
   end).
Proof.
  unfold get_form_data, form_data_of, AdapterObject.get_form_data,
    ChannelsRequestAdapter.get_form_data, AdapterObject.parser_parse,
    self_request, BytesIO_alloc, io_lift.
  unfold mbind, mret, io_bind, io_ret, res_bind, res_ret.
  destruct (mapM load_handler FILE_UPLOAD_HANDLERS) as [e|hs]; [reflexivity|].
  cbn -[ChannelsRequestAdapter.headers json_loads QueryDict_get].
  destruct (ChannelsRequestAdapter.headers str_lower (store_request st))
    as [e|h]; [reflexivity|].
  cbn -[json_loads QueryDict_get].
  rewrite lookup_snoc_length.
  destruct (MultiPartParser_parse _ _ hs) as [[e|[querydict files]] stream'];
    cbn -[json_loads QueryDict_get]; rewrite insert_snoc_length;
    [reflexivity|].
  destruct (json_loads JSON json_decode (QueryDict_get querydict "operations" ""))
    as [e|operations]; [reflexivity|].
  cbn -[json_loads QueryDict_get].
  destruct (json_loads JSON json_decode (QueryDict_get querydict "map" ""))
    as [e|map]; reflexivity.
Qed.

Lemma get_form_data_store_keeps (st : ObjectStore) :
  store_request (get_form_data st).2 = store_request st /\
  store_streams st `prefix_of` store_streams (get_form_data st).2.
Proof.
  rewrite get_form_data_store. simpl.
  destruct (mapM load_handler FILE_UPLOAD_HANDLERS) as [e|hs]; [done|].
  destruct (ChannelsRequestAdapter.headers str_lower (store_request st))
    as [e|h]; [done|].
  simpl. split; [done|]. by apply prefix_app_r.
Qed.

Lemma adapter_calls_body (cs : list AdapterCall) (st : ObjectStore) :
  AdapterObject.adapter_calls str_lower JSON Files UploadHandler json_decode
    FILE_UPLOAD_HANDLERS load_handler MultiPartParser_parse
    (CallGetBody :: cs) st =
  (ReturnedBody (inr (Request.body (store_request st))) ::
     (AdapterObject.adapter_calls str_lower JSON Files UploadHandler json_decode
        FILE_UPLOAD_HANDLERS load_handler MultiPartParser_parse cs st).1,
   (AdapterObject.adapter_calls str_lower JSON Files UploadHandler json_decode
      FILE_UPLOAD_HANDLERS load_handler MultiPartParser_parse cs st).2).
Proof.
  cbn [AdapterObject.adapter_calls AdapterObject.adapter_call].
  unfold AdapterObject.get_body, self_request.
  unfold mbind, mret, io_bind, io_ret. cbn [fst snd].
  by destruct (AdapterObject.adapter_calls _ _ _ _ _ _ _ _ cs st).
Qed.

Lemma adapter_calls_form_data (cs : list AdapterCall) (st : ObjectStore) :
  AdapterObject.adapter_calls str_lower JSON Files UploadHandler json_decode
    FILE_UPLOAD_HANDLERS load_handler MultiPartParser_parse
    (CallGetFormData :: cs) st =
  (ReturnedFormData (get_form_data st).1 ::
     (AdapterObject.adapter_calls str_lower JSON Files UploadHandler json_decode
        FILE_UPLOAD_HANDLERS load_handler MultiPartParser_parse cs
        (get_form_data st).2).1,
   (AdapterObject.adapter_calls str_lower JSON Files UploadHandler json_decode
      FILE_UPLOAD_HANDLERS load_handler MultiPartParser_parse cs
      (get_form_data st).2).2).
Proof.
  cbn [AdapterObject.adapter_calls AdapterObject.adapter_call].
  fold get_form_data. destruct (get_form_data st) as [r st1]. cbn [fst snd].
  by destruct (AdapterObject.adapter_calls _ _ _ _ _ _ _ _ cs st1).
Qed.

Lemma adapter_calls_store (cs : list AdapterCall) : forall st : ObjectStore,
  (AdapterObject.adapter_calls str_lower JSON Files UploadHandler json_decode
     FILE_UPLOAD_HANDLERS load_handler MultiPartParser_parse cs st).1 =
  (fun c =>
     match c with
     | CallGetBody => ReturnedBody (inr (Request.body (store_request st)))
     | CallGetFormData => ReturnedFormData (form_data_of (store_request st))
     end) <$> cs /\
  store_request
    (AdapterObject.adapter_calls str_lower JSON Files UploadHandler json_decode
       FILE_UPLOAD_HANDLERS load_handler MultiPartParser_parse cs st).2 =
  store_request st /\
  store_streams st `prefix_of`
  store_streams
    (AdapterObject.adapter_calls str_lower JSON Files UploadHandler json_decode
       FILE_UPLOAD_HANDLERS load_handler MultiPartParser_parse cs st).2.
Proof.
  induction cs as [|c cs IH]; intros st; [done|].
  destruct c.
  - rewrite adapter_calls_body. cbn [fst snd].
    destruct (IH st) as (Hrs & Hreq & Hpre).
    rewrite fmap_cons. by rewrite Hrs.
  - rewrite adapter_calls_form_data. cbn [fst snd].
    destruct (get_form_data_store_keeps st) as [Hreq1 Hpre1].
    destruct (IH (get_form_data st).2) as (Hrs & Hreq & Hpre).
    rewrite fmap_cons, Hrs, Hreq, Hreq1.
    split; [|split; [done|by etrans]].
    by rewrite get_form_data_store.
Qed.

End CapturedBody.

(** C9.  The body bytes are captured once in the request and every parse
    starts from them.  [get_body] returns the captured bytes and changes
    no object.  [get_form_data] leaves the request and every existing
    stream as they were: it creates a new stream over the captured bytes,
    positioned at their start, and that stream alone is read by the
    parser, so what it returns does not depend on what was read before.
    Hence in any sequence of [get_body] and [get_form_data] calls, in any
    order and of any length, every [get_body] returns the captured bytes
    and every [get_form_data] returns what a single call returns, even
    with a parser that reads its stream to the end. *)
Theorem body_captured_once
  {JSON Files UploadHandler : Type}
  (str_lower : string -> string)
  (json_decode : string -> option JSON)
  (FILE_UPLOAD_HANDLERS : list string)
  (load_handler : string -> res UploadHandler)
  (MultiPartParser_parse :
     META -> BytesIO -> list UploadHandler ->
     res (gmap string (list string) * Files) * BytesIO)
  (st : ObjectStore) :
  let get_form_data :=
    AdapterObject.get_form_data str_lower JSON Files UploadHandler
      json_decode FILE_UPLOAD_HANDLERS load_handler MultiPartParser_parse in
  let adapter_calls :=
    AdapterObject.adapter_calls str_lower JSON Files UploadHandler
      json_decode FILE_UPLOAD_HANDLERS load_handler MultiPartParser_parse in
  AdapterObject.get_body st = (inr (Request.body (store_request st)), st) /\
  (forall (upload_handlers : list UploadHandler) (h : gmap string string)
          (querydict : gmap string (list string)) (files : Files)
          (stream' : BytesIO) (operations map : JSON),
      mapM load_handler FILE_UPLOAD_HANDLERS = inr upload_handlers ->
      ChannelsRequestAdapter.headers str_lower (store_request st) = inr h ->
      MultiPartParser_parse
        {| CONTENT_TYPE := h !! "content-type";
           CONTENT_LENGTH := default "0" (h !! "content-length") |}
        {| buffer := Request.body (store_request st); position := 0 |}
        upload_handlers = (inr (querydict, files), stream') ->
      json_loads JSON json_decode (QueryDict_get querydict "operations" "") =
        inr operations ->
      json_loads JSON json_decode (QueryDict_get querydict "map" "") =
        inr map ->
      get_form_data st =
      (inr (FormData.mk files (Form.mk operations map)),
       {| store_request := store_request st;
          store_streams := store_streams st ++ [stream'] |})) /\
  (store_request (get_form_data st).2 = store_request st /\
   store_streams st `prefix_of` store_streams (get_form_data st).2) /\
  (forall st2 : ObjectStore,
      store_request st2 = store_request st ->
      (get_form_data st2).1 = (get_form_data st).1) /\
  (forall cs : list AdapterCall,
      (adapter_calls cs st).1 =
      (fun c =>
         match c with
         | CallGetBody => ReturnedBody (inr (Request.body (store_request st)))
         | CallGetFormData => ReturnedFormData (get_form_data st).1
         end) <$> cs /\
      store_request (adapter_calls cs st).2 = store_request st /\
      store_streams st `prefix_of` store_streams (adapter_calls cs st).2).
Proof.
  intros get_form_data adapter_calls.
  split; [reflexivity|]. split; [|split; [|split]].
  - intros upload_handlers h querydict files stream' operations map
      Hhandlers Hheaders Hparse Hops Hmap.
    unfold get_form_data. rewrite get_form_data_store.
    unfold ChannelsRequestAdapter.get_form_data, BytesIO_new.
    rewrite Hhandlers. cbn -[ChannelsRequestAdapter.headers json_loads QueryDict_get].
    rewrite Hheaders. cbn -[json_loads QueryDict_get].
    rewrite Hparse. cbn -[json_loads QueryDict_get].
    rewrite Hops. cbn -[json_loads QueryDict_get].
    by rewrite Hmap.
  - apply get_form_data_store_keeps.
  - intros st2 Hsame. unfold get_form_data.
    rewrite !get_form_data_store. cbn [fst]. by rewrite Hsame.
  - intros cs. unfold adapter_calls, get_form_data.
    rewrite get_form_data_store. cbn [fst].
    apply adapter_calls_store.
Qed.

Lemma body_captured_once_witness :
  AdapterObject.get_form_data ascii_lower string unit string
    json_decode_empty_object [] (fun name => mret name) parse_reading
    {| store_request := upload_request_with_body;
       store_streams := [{| buffer := "--x--"; position := 5 |}] |} =
  (inr (FormData.mk tt (Form.mk "{}" "{}")),
   {| store_request := upload_request_with_body;
      store_streams := [{| buffer := "--x--"; position := 5 |}] ++
                       [{| buffer := "--x--"; position := 5 |}] |}).
Proof.
  refine (proj1 (proj2
    (body_captured_once (JSON := string) (Files := unit)
       (UploadHandler := string) ascii_lower json_decode_empty_object []
       (fun name => mret name) parse_reading
       {| store_request := upload_request_with_body;
          store_streams := [{| buffer := "--x--"; position := 5 |}] |}))
    []
    {[ "content-type" := "multipart/form-data; boundary=x";
       "content-length" := "5" ]}
    {[ "operations" := ["{}"]; "map" := ["{}"] ]} tt
    {| buffer := "--x--"; position := 5 |} "{}" "{}" _ _ _ _ _);
    reflexivity.
Defined.

(** * Further properties of the adapter and the consumer *)

(** ** Headers *)

Section HeadersLookup.

Variable str_lower : string -> string.

Lemma foldl_headers_add_decodable l : forall (acc : gmap string string),
  Forall header_decodable l ->
  exists h, foldl (ChannelsRequestAdapter.headers_add str_lower) (inr acc) l = inr h.
Proof.
  induction l as [|[n v] l IH]; intros acc Hall; [by eexists|].
  apply Forall_cons in Hall as [[Hn Hv] Hall]. simpl in Hn, Hv.
  simpl. unfold decode. rewrite Hn, Hv. simpl. by apply IH.
Qed.

Lemma foldl_headers_add_error l : forall (acc : gmap string string) (e : exn),
  foldl (ChannelsRequestAdapter.headers_add str_lower) (inr acc) l = inl e ->
  e = UnicodeDecodeError /\ Exists (fun header => ~ header_decodable header) l.
Proof.
  induction l as [|[n v] l IH]; intros acc e Hfold; [done|].
  simpl in Hfold. unfold decode in Hfold.
  destruct (utf8_valid n) eqn:Hn; simpl in Hfold.
  - destruct (utf8_valid v) eqn:Hv; simpl in Hfold.
    + apply IH in Hfold as [-> Hex]. split; [done|]. by apply Exists_cons_tl.
    + rewrite foldl_headers_add_raise in Hfold. injection Hfold as <-.
      split; [done|]. apply Exists_cons_hd. intros [_ Hv']. simpl in Hv'.
      congruence.
  - rewrite foldl_headers_add_raise in Hfold. injection Hfold as <-.
    split; [done|]. apply Exists_cons_hd. intros [Hn' _]. simpl in Hn'.
    congruence.
Qed.

Lemma foldl_headers_add_other l : forall (acc h : gmap string string) key,
  foldl (ChannelsRequestAdapter.headers_add str_lower) (inr acc) l = inr h ->
  (forall name value, (name, value) ∈ l -> str_lower name ≠ key) ->
  h !! key = acc !! key.
Proof.
  induction l as [|[n v] l IH]; intros acc h key Hfold Hother.
  - simpl in Hfold. by injection Hfold as <-.
  - simpl in Hfold. unfold decode in Hfold.
    destruct (utf8_valid n); simpl in Hfold;
      [|by rewrite foldl_headers_add_raise in Hfold].
    destruct (utf8_valid v); simpl in Hfold;
      [|by rewrite foldl_headers_add_raise in Hfold].
    rewrite (IH _ _ key Hfold).
    + apply lookup_insert_ne. apply (Hother n v), list_elem_of_here.
    + intros name value Hin. apply (Hother name value).
      by apply list_elem_of_further.
Qed.

Lemma foldl_headers_add_last before name value after :
  forall (acc h : gmap string string),
  foldl (ChannelsRequestAdapter.headers_add str_lower) (inr acc)
    (before ++ (name, value) :: after) = inr h ->
  (forall name' value', (name', value') ∈ after ->
                        str_lower name' ≠ str_lower name) ->
  h !! str_lower name = Some value.
Proof.
  intros acc h Hfold Hlast. rewrite foldl_app in Hfold.
  destruct (foldl (ChannelsRequestAdapter.headers_add str_lower) (inr acc)
              before) as [e|acc'].
  - simpl in Hfold. by rewrite foldl_headers_add_raise in Hfold.
  - simpl in Hfold. unfold decode in Hfold.
    destruct (utf8_valid name); simpl in Hfold;
      [|by rewrite foldl_headers_add_raise in Hfold].
    destruct (utf8_valid value); simpl in Hfold;
      [|by rewrite foldl_headers_add_raise in Hfold].
    rewrite (foldl_headers_add_other _ _ _ _ Hfold Hlast).
    apply lookup_insert_eq.
Qed.

End HeadersLookup.

(** X1.  When several delivered headers have the same lower-cased name,
    the [headers] mapping holds the value of the last of them, with its
    bytes unchanged. *)
Theorem headers_last_occurrence_wins
  (str_lower : string -> string) (request : Request.t)
  (h : gmap string string)
  (before after : list (string * string)) (name value : string) :
  ChannelsRequestAdapter.headers str_lower request = inr h ->
  Scope.headers (Request.consumer request) = before ++ (name, value) :: after ->
  (forall name' value', (name', value') ∈ after ->
                        str_lower name' ≠ str_lower name) ->
  h !! str_lower name = Some value.
Proof.
  intros Hh Hraw Hlast. unfold ChannelsRequestAdapter.headers in Hh.
  rewrite Hraw in Hh. by eapply foldl_headers_add_last.
Qed.

Lemma headers_last_occurrence_wins_witness :
  ({[ "accept" := "text/html" ]} : gmap string string) !! ascii_lower "ACCEPT" =
  Some "text/html".
Proof.
  apply (headers_last_occurrence_wins ascii_lower
           (Request.mk (Scope.mk "GET" ""
                          [("Accept", "*/*"); ("ACCEPT", "text/html")]) "")
           {[ "accept" := "text/html" ]}
           [("Accept", "*/*")] [] "ACCEPT" "text/html").
  - reflexivity.
  - reflexivity.
  - intros name' value' Hin. by apply elem_of_nil in Hin.
Defined.

(** X2.  [headers] succeeds when every delivered header name and value is
    well-formed UTF-8; when it fails, the error is a [UnicodeDecodeError]
    and some delivered name or value is not well-formed UTF-8. *)
Theorem headers_fails_on_ill_formed_only
  (str_lower : string -> string) (request : Request.t) :
  (Forall header_decodable (Scope.headers (Request.consumer request)) ->
   exists h, ChannelsRequestAdapter.headers str_lower request = inr h) /\
  (forall e, ChannelsRequestAdapter.headers str_lower request = inl e ->
             e = UnicodeDecodeError /\
             Exists (fun header => ~ header_decodable header)
               (Scope.headers (Request.consumer request))).
Proof.
  split.
  - apply foldl_headers_add_decodable.
  - apply foldl_headers_add_error.
Qed.

Lemma headers_fails_on_ill_formed_only_witness :
  exists h,
    ChannelsRequestAdapter.headers ascii_lower
      (Request.mk (Scope.mk "GET" "" [("Accept", "*/*")]) "") = inr h.
Proof.
  apply (proj1 (headers_fails_on_ill_formed_only ascii_lower
                  (Request.mk (Scope.mk "GET" "" [("Accept", "*/*")]) ""))).
  simpl. repeat constructor.
Defined.

(** X3.  When the headers decode, [content_type] is [None] exactly when no
    delivered header name lower-cases to [content-type]; when they do not
    decode, [content_type] raises what [headers] raises. *)
Theorem content_type_none_iff_no_header
  (str_lower : string -> string) (request : Request.t) :
  (forall h, ChannelsRequestAdapter.headers str_lower request = inr h ->
     exists value,
       ChannelsRequestAdapter.content_type str_lower request = inr value /\
       (value = None <->
        forall name v, (name, v) ∈ Scope.headers (Request.consumer request) ->
                       str_lower name ≠ "content-type")) /\
  (forall e, ChannelsRequestAdapter.headers str_lower request = inl e ->
     ChannelsRequestAdapter.content_type str_lower request = inl e).
Proof.
  split.
  - intros h Hh. exists (h !! "content-type"). split.
    + unfold ChannelsRequestAdapter.content_type. by rewrite Hh.
    + pose proof Hh as Hinv. unfold ChannelsRequestAdapter.headers in Hinv.
      split.
      * intros Hnone name v Hin Heq.
        apply foldl_headers_add_inv in Hinv as (_ & Hall & _).
        specialize (Hall name v Hin). rewrite Heq in Hall.
        apply elem_of_dom in Hall as [x Hx]. congruence.
      * intros Hno.
        by rewrite (foldl_headers_add_other _ _ _ _ _ Hinv Hno), lookup_empty.
  - intros e He. unfold ChannelsRequestAdapter.content_type. by rewrite He.
Qed.

Lemma content_type_none_iff_no_header_witness :
  exists value,
    ChannelsRequestAdapter.content_type ascii_lower
      (Request.mk (Scope.mk "GET" "" [("Accept", "*/*")]) "") = inr value /\
    (value = None <->
     forall name v, (name, v) ∈ [("Accept", "*/*")] ->
                    ascii_lower name ≠ "content-type").
Proof.
  apply (proj1 (content_type_none_iff_no_header ascii_lower
                  (Request.mk (Scope.mk "GET" "" [("Accept", "*/*")]) ""))
           {[ "accept" := "*/*" ]}).
  reflexivity.
Defined.

(** ** Query parameters *)

Lemma is_ascii_utf8_run (s : string) :
  is_ascii s = true -> utf8_run Utf8Start s = true.
Proof.
  induction s as [|a s IH]; [done|]. simpl.
  intros [Ha Hs]%andb_true_iff. unfold utf8_lead. rewrite Ha. by apply IH.
Qed.

Lemma parse_qsl_field_nonempty (unquote : string -> string) (field : string) :
  field ≠ "" ->
  parse_qsl_field unquote true field =
  [(field_name unquote field, field_value unquote field)].
Proof.
  intros Hne. unfold parse_qsl_field, split1, field_name, field_value.
  destruct (String.eqb_spec field "") as [->|_]; [done|].
  destruct (partition "=" field) as [[n v]|]; simpl; [|done].
  by rewrite orb_true_r.
Qed.

Lemma parse_qsl_names (unquote : string -> string) (qs key : string) :
  key ∈ (parse_qsl unquote true qs).*1 <->
  exists field, field ∈ split "&" qs /\ field ≠ "" /\
                key = field_name unquote field.
Proof.
  unfold parse_qsl. rewrite list_elem_of_fmap. split.
  - intros ([k v] & -> & Hin). simpl.
    apply list_elem_of_In, in_flat_map in Hin as (field & Hfield & Hpair).
    exists field. split; [by apply list_elem_of_In|].
    destruct (decide (field = "")) as [->|Hne]; [done|].
    rewrite (parse_qsl_field_nonempty _ _ Hne) in Hpair.
    destruct Hpair as [[= <- <-]|[]]. done.
  - intros (field & Hfield & Hne & ->).
    exists (field_name unquote field, field_value unquote field).
    split; [done|]. apply list_elem_of_In, in_flat_map.
    exists field. split; [by apply list_elem_of_In|].
    rewrite (parse_qsl_field_nonempty _ _ Hne). by left.
Qed.

(** X4.  The only way [query_params] fails is a query string that is not
    well-formed UTF-8, with a [UnicodeDecodeError]; indexing [value[0]]
    never fails.  In particular it succeeds on every query string made of
    ASCII bytes, as a percent-encoded one is. *)
Theorem query_params_fails_on_ill_formed_only
  (unquote : string -> string) (request : Request.t) :
  (utf8_valid (Scope.query_string (Request.consumer request)) = true ->
   exists params, ChannelsRequestAdapter.query_params unquote request = inr params) /\
  (is_ascii (Scope.query_string (Request.consumer request)) = true ->
   exists params, ChannelsRequestAdapter.query_params unquote request = inr params) /\
  (forall e, ChannelsRequestAdapter.query_params unquote request = inl e ->
             e = UnicodeDecodeError /\
             utf8_valid (Scope.query_string (Request.consumer request)) = false).
Proof.
  rewrite query_params_spec. unfold decode, utf8_valid.
  split; [|split].
  - intros ->. by eexists.
  - intros Hascii. rewrite (is_ascii_utf8_run _ Hascii). by eexists.
  - intros e. destruct (utf8_run _ _); [done|]. by intros [= <-].
Qed.

Lemma query_params_fails_on_ill_formed_only_witness :
  exists params,
    ChannelsRequestAdapter.query_params unquote_to_bytes
      (get_request "query=%7Bhello%7D") = inr params.
Proof.
  apply (proj1 (proj2 (query_params_fails_on_ill_formed_only unquote_to_bytes
                         (get_request "query=%7Bhello%7D")))).
  reflexivity.
Defined.

(** X5.  The keys of [query_params] are exactly the names of the
    non-empty fields of the query string: empty fields (as in [a=1&&b=2])
    contribute nothing, and the result is the empty mapping exactly when
    the query string has no non-empty field, the empty query string
    included. *)
Theorem query_params_keys
  (unquote : string -> string) (request : Request.t)
  (params : gmap string string) :
  ChannelsRequestAdapter.query_params unquote request = inr params ->
  (forall key,
      key ∈ dom params <->
      exists field,
        field ∈ split "&" (Scope.query_string (Request.consumer request)) /\
        field ≠ "" /\ key = field_name unquote field) /\
  (params = ∅ <->
   Forall (fun field => field = "")
     (split "&" (Scope.query_string (Request.consumer request)))).
Proof.
  rewrite query_params_spec. unfold decode.
  destruct (utf8_valid _); [|done]. simpl. intros [= <-].
  assert (forall key,
      key ∈ dom (list_to_map
                   (parse_qsl unquote true
                      (Scope.query_string (Request.consumer request)))
                 : gmap string string) <->
      exists field,
        field ∈ split "&" (Scope.query_string (Request.consumer request)) /\
        field ≠ "" /\ key = field_name unquote field) as Hkeys.
  { intros key. rewrite dom_list_to_map_L, elem_of_list_to_set.
    apply parse_qsl_names. }
  split; [done|]. split.
  - intros Hempty. apply Forall_forall. intros field Hin.
    destruct (decide (field = "")) as [|Hne]; [done|].
    assert (field_name unquote field ∈ dom (∅ : gmap string string)) as Hdom.
    { rewrite <- Hempty. apply Hkeys. by exists field. }
    by rewrite dom_empty_L in Hdom.
  - intros Hall. apply dom_empty_iff_L. apply set_eq. intros key.
    rewrite Hkeys. split; [|by intros ?%not_elem_of_empty].
    intros (field & Hin & Hne & _). rewrite Forall_forall in Hall.
    by specialize (Hall field Hin).
Qed.

Lemma query_params_keys_witness :
  (forall key,
      key ∈ dom ({[ "a" := "1"; "b" := "2" ]} : gmap string string) <->
      exists field,
        field ∈ split "&" "a=1&&b=2" /\
        field ≠ "" /\ key = field_name unquote_to_bytes field) /\
  (({[ "a" := "1"; "b" := "2" ]} : gmap string string) = ∅ <->
   Forall (fun field => field = "") (split "&" "a=1&&b=2")).
Proof.
  apply (query_params_keys unquote_to_bytes (get_request "a=1&&b=2")
           {[ "a" := "1"; "b" := "2" ]}).
  rewrite query_params_spec. reflexivity.
Defined.

(** ** Sending *)

(** X6.  [handle] sends exactly one response, appended to what was sent
    before, unless processing raises something that is not an
    [HTTPException]; then it sends nothing and raises the same error. *)
Theorem handle_one_response_or_error
  (run : Consumer -> Request.t -> res Result.t)
  (self : Consumer) (body : string) (outbox : list Sent) :
  (exists sent,
      GraphQLHTTPConsumer.handle run self body outbox = inr (outbox ++ [sent])) \/
  (exists e,
      run self (Request.mk (scope self) body) = inl e /\
      (forall status_code reason, e ≠ HTTPException status_code reason) /\
      GraphQLHTTPConsumer.handle run self body outbox = inl e).
Proof.
  destruct (run self (Request.mk (scope self) body)) as [e|response] eqn:Hrun.
  - destruct e as [| | | | | | status_code reason |];
      try (right; eexists; split; [reflexivity|]; split; [done|];
           unfold GraphQLHTTPConsumer.handle; by rewrite Hrun).
    left. eexists. by apply handle_http_error.
  - left. eexists. by apply handle_ok.
Qed.

(** X7.  When processing ends in [create_response] and the payload
    serialises, [handle] sends the serialised payload as the body, with
    the sub-response's status code when it is set and not 0 and with 200
    otherwise, and with the sub-response's headers, to which
    [Content-Type: application/json] is added when they have no
    [Content-Type].  When the payload does not serialise and the error is
    not an [HTTPException], [handle] raises that error and sends
    nothing. *)
Theorem handle_create_response {JSON GraphQLError : Type}
  (json_dumps : GraphQLHTTPResponse.t JSON GraphQLError -> res string)
  (run : Consumer -> Request.t -> res Result.t)
  (self : Consumer) (body : string) (outbox : list Sent)
  (response_data : GraphQLHTTPResponse.t JSON GraphQLError)
  (sub_response : TemporalResponse.t) :
  run self (Request.mk (scope self) body) =
    GraphQLHTTPConsumer.create_response JSON GraphQLError json_dumps
      response_data sub_response ->
  (forall dumped, json_dumps response_data = inr dumped ->
     GraphQLHTTPConsumer.handle run self body outbox =
     inr (outbox ++
          [{| sent_status :=
                match TemporalResponse.status_code sub_response with
                | Some status_code =>
                    if (status_code =? 0)%Z then 200%Z else status_code
                | None => 200%Z
                end;
              sent_content := dumped;
              sent_headers :=
                Some match TemporalResponse.headers sub_response !! "Content-Type" with
                     | Some _ => TemporalResponse.headers sub_response
                     | None =>
                         <["Content-Type" := "application/json"]>
                           (TemporalResponse.headers sub_response)
                     end |}])) /\
  (forall e, json_dumps response_data = inl e ->
     (forall status_code reason, e ≠ HTTPException status_code reason) ->
     GraphQLHTTPConsumer.handle run self body outbox = inl e).
Proof.
  intros Hrun. split.
  - intros dumped Hdumps.
    rewrite (create_response_ok _ _ sub_response _ Hdumps) in Hrun.
    rewrite (handle_ok _ _ _ _ _ Hrun). unfold sent_headers_of. simpl.
    do 3 f_equal. unfold encode. f_equal.
    case_decide as Hempty; simpl; [by rewrite Hempty, lookup_empty|done].
  - intros e Hdumps Hnot.
    unfold GraphQLHTTPConsumer.create_response in Hrun.
    rewrite Hdumps in Hrun. simpl in Hrun.
    unfold GraphQLHTTPConsumer.handle. rewrite Hrun.
    destruct e; try done. by destruct (Hnot status_code reason).
Qed.

Lemma handle_create_response_witness :
  GraphQLHTTPConsumer.handle
    (fun _ _ =>
       GraphQLHTTPConsumer.create_response string string json_dumps_text
         (GraphQLHTTPResponse.mk (Some "null") None None)
         (TemporalResponse.mk (Some 201%Z) {[ "Set-Cookie" := "a=b" ]}))
    (Build_Consumer true true true (Scope.mk "POST" "" [])) "" [] =
  inr ([] ++
       [{| sent_status := 201;
           sent_content := "{" +:+ dquote +:+ "data" +:+ dquote +:+ ": null}";
           sent_headers :=
             Some (<["Content-Type" := "application/json"]>
                     {[ "Set-Cookie" := "a=b" ]}) |}]).
Proof.
  exact (proj1 (handle_create_response json_dumps_text
           (fun _ _ =>
              GraphQLHTTPConsumer.create_response string string json_dumps_text
                (GraphQLHTTPResponse.mk (Some "null") None None)
                (TemporalResponse.mk (Some 201%Z) {[ "Set-Cookie" := "a=b" ]}))
           (Build_Consumer true true true (Scope.mk "POST" "" [])) "" []
           (GraphQLHTTPResponse.mk (Some "null") None None)
           (TemporalResponse.mk (Some 201%Z) {[ "Set-Cookie" := "a=b" ]})
           eq_refl)
           ("{" +:+ dquote +:+ "data" +:+ dquote +:+ ": null}") eq_refl).
Defined.

(** ** Synchronous execution *)

(** X8.  The [allow_queries_via_get] switch narrows the allowed operation
    types only for the method [GET], compared exactly as the scope holds
    it: when the switch is on, or the scope's method is anything but
    [GET], [execute] hands the engine the set that [from_http] gives for
    the method, unchanged; and when [from_http] rejects the method the
    engine is not called. *)
Theorem sync_execute_passes_from_http
  {Variables RootValue Context ExecutionResult Response : Type}
  (get_context : Consumer -> res Context)
  (get_root_value : Consumer -> res RootValue)
  (execute_sync :
     ExecuteArgs.t Variables RootValue Context -> res ExecutionResult)
  (process_result : ExecutionResult -> res Response)
  (self : Consumer) (request_data : GraphQLRequestData.t Variables) :
  allow_queries_via_get self = true \/ Scope.method (scope self) ≠ "GET" ->
  SyncGraphQLHTTPConsumer.execute Variables RootValue Context
    ExecutionResult Response get_context get_root_value execute_sync
    process_result self request_data =
  (context ← get_context self;
   root_value ← get_root_value self;
   match from_http (Scope.method (scope self)) with
   | inl e => raise e
   | inr allowed =>
       result ← execute_sync
                  (ExecuteArgs.mk
                     (GraphQLRequestData.query request_data)
                     root_value
                     (GraphQLRequestData.variables request_data)
                     context
                     (GraphQLRequestData.operation_name request_data)
                     allowed);
       process_result result
   end).
Proof.
  intros Hcase. unfold SyncGraphQLHTTPConsumer.execute.
  destruct (get_context self) as [e|context]; [done|]. simpl.
  destruct (get_root_value self) as [e|root_value]; [done|]. simpl.
  destruct (from_http (Scope.method (scope self))) as [e|allowed]; [done|].
  simpl. destruct Hcase as [->|Hmethod]; [done|].
  destruct (String.eqb_spec (Scope.method (scope self)) "GET"); [done|].
  by rewrite andb_false_r.
Qed.

Lemma sync_execute_passes_from_http_witness :
  SyncGraphQLHTTPConsumer.execute string (option string) Consumer string string
    (fun self => mret self) (fun _ => mret None)
    (fun args => mret (default "" (ExecuteArgs.query args)))
    (fun result => mret result)
    (Build_Consumer true false true (Scope.mk "POST" "" []))
    (GraphQLRequestData.mk (Some "mutation { ping }") None None) =
  mret "mutation { ping }".
Proof.
  rewrite sync_execute_passes_from_http by (right; discriminate).
  reflexivity.
Defined.

(** ** Multipart form data *)

(** X9.  When the multipart body parses and its [operations] and [map]
    fields hold valid JSON, [get_form_data] returns the parser's files
    unchanged together with the two decoded fields, and nothing else of
    the parsed body enters the result: any other parse with the same
    files and the same [operations] and [map] fields gives the same form
    data. *)
Theorem get_form_data_reads_operations_and_map
  {JSON Files UploadHandler : Type}
  (str_lower : string -> string)
  (json_decode : string -> option JSON)
  (FILE_UPLOAD_HANDLERS : list string)
  (load_handler : string -> res UploadHandler)
  (MultiPartParser_parse :
     META -> BytesIO -> list UploadHandler ->
     res (gmap string (list string) * Files))
  (request : Request.t)
  (upload_handlers : list UploadHandler) (h : gmap string string)
  (querydict : gmap string (list string)) (files : Files)
  (operations map : JSON) :
  mapM load_handler FILE_UPLOAD_HANDLERS = inr upload_handlers ->
  ChannelsRequestAdapter.headers str_lower request = inr h ->
  MultiPartParser_parse
    {| CONTENT_TYPE := h !! "content-type";
       CONTENT_LENGTH := default "0" (h !! "content-length") |}
    (BytesIO_new (Request.body request)) upload_handlers =
    inr (querydict, files) ->
  json_loads JSON json_decode (QueryDict_get querydict "operations" "") =
    inr operations ->
  json_loads JSON json_decode (QueryDict_get querydict "map" "") = inr map ->
  ChannelsRequestAdapter.get_form_data str_lower JSON Files UploadHandler
    json_decode FILE_UPLOAD_HANDLERS load_handler MultiPartParser_parse
    request = inr (FormData.mk files (Form.mk operations map)) /\
  (forall (parse' :
             META -> BytesIO -> list UploadHandler ->
             res (gmap string (list string) * Files))
          (querydict' : gmap string (list string)),
      parse'
        {| CONTENT_TYPE := h !! "content-type";
           CONTENT_LENGTH := default "0" (h !! "content-length") |}
        (BytesIO_new (Request.body request)) upload_handlers =
        inr (querydict', files) ->
      querydict' !! "operations" = querydict !! "operations" ->
      querydict' !! "map" = querydict !! "map" ->
      ChannelsRequestAdapter.get_form_data str_lower JSON Files UploadHandler
        json_decode FILE_UPLOAD_HANDLERS load_handler parse' request =
      inr (FormData.mk files (Form.mk operations map))).
Proof.
  intros Hhandlers Hheaders Hparse Hops Hmap.
  assert (forall (parse' :
             META -> BytesIO -> list UploadHandler ->
             res (gmap string (list string) * Files))
          (querydict' : gmap string (list string)),
      parse'
        {| CONTENT_TYPE := h !! "content-type";
           CONTENT_LENGTH := default "0" (h !! "content-length") |}
        (BytesIO_new (Request.body request)) upload_handlers =
        inr (querydict', files) ->
      querydict' !! "operations" = querydict !! "operations" ->
      querydict' !! "map" = querydict !! "map" ->
      ChannelsRequestAdapter.get_form_data str_lower JSON Files UploadHandler
        json_decode FILE_UPLOAD_HANDLERS load_handler parse' request =
      inr (FormData.mk files (Form.mk operations map))) as Hany.
  { intros parse' querydict' Hparse' Hsame_ops Hsame_map.
    unfold ChannelsRequestAdapter.get_form_data.
    rewrite Hhandlers. simpl. rewrite Hheaders. simpl.
    rewrite Hparse'. simpl.
    unfold QueryDict_get in *. rewrite Hsame_ops, Hsame_map, Hops. simpl.
    by rewrite Hmap. }
  split; [by eapply Hany|done].
Qed.

Lemma get_form_data_reads_operations_and_map_witness :
  ChannelsRequestAdapter.get_form_data ascii_lower string unit string
    json_decode_empty_object [] (fun name => mret name)
    (fun _ _ _ =>
       mret ({[ "operations" := ["{}"]; "map" := ["{}"];
                "comment" := ["x"] ]}, tt))
    upload_request =
  inr (FormData.mk tt (Form.mk "{}" "{}")).
Proof.
  refine (proj2
    (get_form_data_reads_operations_and_map (JSON := string) (Files := unit)
       (UploadHandler := string) ascii_lower json_decode_empty_object []
       (fun name => mret name)
       (fun _ _ _ => mret ({[ "operations" := ["{}"]; "map" := ["{}"] ]}, tt))
       upload_request []
       {[ "content-type" := "multipart/form-data; boundary=x" ]}
       {[ "operations" := ["{}"]; "map" := ["{}"] ]} tt "{}" "{}"
       _ _ _ _ _)
    (fun _ _ _ =>
       mret ({[ "operations" := ["{}"]; "map" := ["{}"];
                "comment" := ["x"] ]}, tt))
    {[ "operations" := ["{}"]; "map" := ["{}"]; "comment" := ["x"] ]}
    _ _ _); reflexivity.
Defined.


